(** * Hex-grid spatial subsystem of the bee simulation (src/src/world/hex_world.c)

    A shallow embedding of the hex lattice: the binary32 arithmetic of the
    C code is modelled with the IEEE-754 specification floats of the
    Standard Library ([SpecFloat] at precision 24, maximal exponent 128),
    rounding to nearest, ties to even, with every float operation of the
    source rounded separately (no contraction into fused multiply-adds,
    [FLT_EVAL_METHOD == 0]).  C [int] and [size_t] values are [Z], with the
    conversions of the source written out. *)

From Stdlib Require Import ZArith Lia List Bool.
From Stdlib Require Import Floats.SpecFloat.
From Stdlib Require Import Reals Lra.
Import ListNotations.

Open Scope Z_scope.

(** ** binary32 *)

Definition prec : Z := 24.
Definition emax : Z := 128.

Definition float := spec_float.

Definition fadd : float -> float -> float := SFadd prec emax.
Definition fsub : float -> float -> float := SFsub prec emax.
Definition fmul : float -> float -> float := SFmul prec emax.
Definition fdiv : float -> float -> float := SFdiv prec emax.
Definition fsqrt : float -> float := SFsqrt prec emax.
Definition fneg : float -> float := SFopp.
Definition fabs : float -> float := SFabs.

(** The C comparison operators; every comparison with a NaN is false. *)
Definition flt (x y : float) : bool := SFltb x y.
Definition fle (x y : float) : bool := SFleb x y.
Definition feq (x y : float) : bool := SFeqb x y.
Definition fgt (x y : float) : bool := SFltb y x.
Definition fge (x y : float) : bool := SFleb y x.

Definition fzero : float := S754_zero false.

(** Conversion of an integer to float ([(float)n]), rounded to nearest. *)
Definition of_Z (n : Z) : float := binary_normalize prec emax n 0 false.

(** A decimal literal [n * 10^-k] written with the suffix [f]: the float
    nearest to the rational [n / 10^k]. *)
Definition flit (n : Z) (k : nat) : float :=
  let '(m, e, l) := SFdiv_core_binary prec emax n 0 (10 ^ Z.of_nat k) 0 in
  binary_round_aux prec emax false m e l.

(** [fmaxf]: a NaN argument is ignored. *)
Definition fmaxf (a b : float) : float :=
  match a, b with
  | S754_nan, _ => b
  | _, S754_nan => a
  | _, _ => if flt a b then b else a
  end.

(** [lrintf] in the default rounding mode (to nearest, ties to even),
    followed by the conversion of the [long] to [int].  Out-of-range and
    non-finite arguments give [LONG_MIN], as the x86-64 conversion does. *)
Definition long_min : Z := - 2 ^ 63.

Definition round_ne_shift (m k : Z) : Z :=
  let q := Z.shiftr m k in
  let rem := m - q * 2 ^ k in
  let half := 2 ^ (k - 1) in
  if (half <? rem) || ((rem =? half) && Z.odd q) then q + 1 else q.

Definition lrint_long (x : float) : Z :=
  match x with
  | S754_zero _ => 0
  | S754_finite s m e =>
      let v := if 0 <=? e then Z.shiftl (Zpos m) e else round_ne_shift (Zpos m) (- e) in
      let v := if s then - v else v in
      if (long_min <=? v) && (v <? 2 ^ 63) then v else long_min
  | _ => long_min
  end.

Definition to_int32 (z : Z) : Z := ((z + 2 ^ 31) mod 2 ^ 32) - 2 ^ 31.
Definition to_int16 (z : Z) : Z := ((z + 2 ^ 15) mod 2 ^ 16) - 2 ^ 15.
Definition to_uint16 (z : Z) : Z := z mod 2 ^ 16.
Definition to_uint32 (z : Z) : Z := z mod 2 ^ 32.
Definition to_size (z : Z) : Z := z mod 2 ^ 64.
Definition SIZE_MAX : Z := 2 ^ 64 - 1.

Definition lrintf_int (x : float) : Z := to_int32 (lrint_long x).

(** ** Constants of hex_world.c *)

Definition SQRT3 : float := flit 17320508075688772 16.
Definition c0 : float := fzero.
Definition c0_5 : float := flit 5 1.
Definition c1 : float := of_Z 1.
Definition c1_5 : float := flit 15 1.
Definition c2 : float := of_Z 2.
Definition c3 : float := of_Z 3.
Definition c8 : float := of_Z 8.

(** ** Data model (include/hex.h, include/params.h)

    Only the fields of [Params] read by hex_world.c are kept. *)

Record HiveParams := {
  rect_x : float;
  rect_y : float;
  rect_w : float;
  rect_h : float;
  entrance_side : Z;       (* 0=top,1=bottom,2=left,3=right *)
  entrance_t : float;
  entrance_width : float
}.

Record HexParams := {
  enabled : bool;
  p_cell_size : float;
  p_origin_x : float;
  p_origin_y : float;
  p_q_min : Z;
  p_q_max : Z;
  p_r_min : Z;
  p_r_max : Z
}.

Record Params := {
  hive : HiveParams;
  hex : HexParams
}.

Inductive HexTerrain :=
| HEX_TERRAIN_OPEN
| HEX_TERRAIN_FOREST
| HEX_TERRAIN_MOUNTAIN
| HEX_TERRAIN_WATER
| HEX_TERRAIN_HIVE
| HEX_TERRAIN_FLOWERS
| HEX_TERRAIN_ENTRANCE.

Definition HEX_TILE_VISIBLE : Z := 1.

Record HexTile := {
  tq : Z;                  (* int16_t q *)
  tr : Z;                  (* int16_t r *)
  terrain : HexTerrain;
  nectar_stock : float;
  nectar_capacity : float;
  nectar_recharge_rate : float;
  flow_capacity : float;
  center_x : float;
  center_y : float;
  flags : Z
}.

(** [tiles = None] is the null tile pointer. *)
Record HexWorld := {
  cell_size : float;
  origin_x : float;
  origin_y : float;
  q_min : Z;               (* int16_t *)
  q_max : Z;
  r_min : Z;
  r_max : Z;
  width : Z;               (* uint16_t *)
  height : Z;
  count : Z;               (* size_t *)
  tiles : option (list HexTile)
}.

(** [hex_world_init] / [hex_world_destroy]: every field zeroed. *)
Definition empty_world : HexWorld := {|
  cell_size := fzero; origin_x := fzero; origin_y := fzero;
  q_min := 0; q_max := 0; r_min := 0; r_max := 0;
  width := 0; height := 0; count := 0; tiles := None |}.

(** A tile as returned by [calloc]: all bytes zero. *)
Definition zero_tile : HexTile := {|
  tq := 0; tr := 0; terrain := HEX_TERRAIN_OPEN;
  nectar_stock := fzero; nectar_capacity := fzero;
  nectar_recharge_rate := fzero; flow_capacity := fzero;
  center_x := fzero; center_y := fzero; flags := 0 |}.

(** ** pseudo_noise01 *)

Definition u32_mul (a b : Z) : Z := to_uint32 (a * b).

Definition noise_hash (q r : Z) : Z :=
  let h := Z.lxor (u32_mul (to_uint32 q) 73856093) (u32_mul (to_uint32 r) 19349663) in
  let h := Z.lxor h (Z.shiftr h 13) in
  let h := u32_mul h 1540483477 (* 0x5bd1e995 *) in
  Z.lxor h (Z.shiftr h 15).

Definition pseudo_noise01 (q r : Z) : float :=
  fdiv (of_Z (Z.land (noise_hash q r) 16777215 (* 0xFFFFFF *)))
       (of_Z 16777216 (* 0x1000000 *)).

Definition clampf (v lo hi : float) : float :=
  if flt v lo then lo else if fgt v hi then hi else v.

(** ** assign_tile_defaults *)

Definition hive_enabled (h : HiveParams) : bool :=
  fgt (rect_w h) c0 && fgt (rect_h h) c0.

(** The colony-interior test of the source (inclusive). *)
Definition in_colony_rect (h : HiveParams) (t : HexTile) : bool :=
  fge (center_x t) (rect_x h) && fle (center_x t) (fadd (rect_x h) (rect_w h)) &&
  fge (center_y t) (rect_y h) && fle (center_y t) (fadd (rect_y h) (rect_h h)).

Definition entrance_point (h : HiveParams) : float * float :=
  let tcl := clampf (entrance_t h) c0 c1 in
  match entrance_side h with
  | 0 => (fadd (rect_x h) (fmul tcl (rect_w h)), rect_y h)
  | 1 => (fadd (rect_x h) (fmul tcl (rect_w h)), fadd (rect_y h) (rect_h h))
  | 2 => (rect_x h, fadd (rect_y h) (fmul tcl (rect_h h)))
  | 3 => (fadd (rect_x h) (rect_w h), fadd (rect_y h) (fmul tcl (rect_h h)))
  | _ => (rect_x h, rect_y h)
  end.

Definition entrance_dx (h : HiveParams) (t : HexTile) : float :=
  fsub (center_x t) (fst (entrance_point h)).
Definition entrance_dy (h : HiveParams) (t : HexTile) : float :=
  fsub (center_y t) (snd (entrance_point h)).

(** The axial test [axial_ok] of the source. *)
Definition entrance_axial_ok (h : HiveParams) (w : HexWorld) (t : HexTile) : bool :=
  let axial_extent :=
    if fgt (entrance_width h) c0 then fmul (entrance_width h) c0_5 else cell_size w in
  if (entrance_side h =? 0) || (entrance_side h =? 1)
  then fle (fabs (entrance_dx h t)) axial_extent
  else fle (fabs (entrance_dy h t)) axial_extent.

(** The radial test [entrance_dist <= radial_limit] of the source. *)
Definition entrance_radial_ok (h : HiveParams) (w : HexWorld) (t : HexTile) : bool :=
  let dx := entrance_dx h t in
  let dy := entrance_dy h t in
  let entrance_dist := fsqrt (fadd (fmul dx dx) (fmul dy dy)) in
  let entrance_half := fmul (entrance_width h) c0_5 in
  let radial_limit := fmaxf (fmul (cell_size w) (flit 12 1)) entrance_half in
  fle entrance_dist radial_limit.

Definition set_terrain (t : HexTile) (k : HexTerrain) (flow : float) : HexTile :=
  {| tq := tq t; tr := tr t; terrain := k;
     nectar_stock := nectar_stock t; nectar_capacity := nectar_capacity t;
     nectar_recharge_rate := nectar_recharge_rate t; flow_capacity := flow;
     center_x := center_x t; center_y := center_y t; flags := flags t |}.

Definition set_nectar (t : HexTile) (stock capacity recharge : float) : HexTile :=
  {| tq := tq t; tr := tr t; terrain := terrain t;
     nectar_stock := stock; nectar_capacity := capacity;
     nectar_recharge_rate := recharge; flow_capacity := flow_capacity t;
     center_x := center_x t; center_y := center_y t; flags := flags t |}.

(** The terrain bands after the colony rules, from [float local_x] on. *)
Definition classify_by_noise (w : HexWorld) (t : HexTile) : HexTile :=
  let local_x := fsub (center_x t) (origin_x w) in
  let local_y := fsub (center_y t) (origin_y w) in
  let dist := fsqrt (fadd (fmul local_x local_x) (fmul local_y local_y)) in
  let noise := pseudo_noise01 (tq t) (tr t) in
  if fgt dist (fmul (cell_size w) c8) && fgt noise (flit 68 2) then
    let cap := fadd (of_Z 240) (fmul (of_Z 60) noise) in
    let stock := fmul cap (clampf (fadd (flit 55 2) (fmul (flit 4 1) (fsub noise (flit 68 2))))
                                  (flit 35 2) (flit 95 2)) in
    let recharge := fadd (flit 45 1) (fmul c2 (fsub noise (flit 68 2))) in
    set_terrain (set_nectar t stock cap recharge) HEX_TERRAIN_FLOWERS (of_Z 18)
  else if flt noise (flit 4 2) then set_terrain t HEX_TERRAIN_WATER c2
  else if flt noise (flit 8 2) then set_terrain t HEX_TERRAIN_MOUNTAIN c1_5
  else if flt noise (flit 18 2) then
    let cap := of_Z 30 in
    set_terrain (set_nectar t (fmul cap (flit 3 1)) cap (flit 8 1)) HEX_TERRAIN_FOREST (of_Z 6)
  else t.

Definition assign_tile_defaults (params : option Params) (w : HexWorld) (tile : HexTile) : HexTile :=
  let t := {| tq := tq tile; tr := tr tile; terrain := HEX_TERRAIN_OPEN;
              nectar_stock := fzero; nectar_capacity := fzero;
              nectar_recharge_rate := fzero; flow_capacity := c8;
              center_x := center_x tile; center_y := center_y tile;
              flags := HEX_TILE_VISIBLE |} in
  match params with
  | None => t
  | Some p =>
      let h := hive p in
      if hive_enabled h then
        if in_colony_rect h t then set_terrain t HEX_TERRAIN_HIVE (of_Z 35)
        else if entrance_axial_ok h w t && entrance_radial_ok h w t
        then set_terrain t HEX_TERRAIN_ENTRANCE (of_Z 26)
        else classify_by_noise w t
      else classify_by_noise w t
  end.

(** ** hex_world_create *)

(** [zrange a n] is [a, a+1, ..., a+n-1]: the values taken by a loop
    [for (int i = a; i <= a+n-1; ++i)]. *)
Fixpoint zrange (a : Z) (n : nat) : list Z :=
  match n with
  | O => []
  | S n' => a :: zrange (a + 1) n'
  end.

(** The centre written into a fresh tile by the loop of [hex_world_create]. *)
Definition tile_center (w : HexWorld) (q r : Z) : float * float :=
  let cx := fmul (fmul SQRT3 (cell_size w)) (fadd (of_Z q) (fmul (of_Z r) c0_5)) in
  let cy := fmul (fmul c1_5 (cell_size w)) (of_Z r) in
  (fadd (origin_x w) cx, fadd (origin_y w) cy).

Definition fresh_tile (w : HexWorld) (q r : Z) : HexTile :=
  let '(cx, cy) := tile_center w q r in
  {| tq := to_int16 q; tr := to_int16 r; terrain := HEX_TERRAIN_OPEN;
     nectar_stock := fzero; nectar_capacity := fzero;
     nectar_recharge_rate := fzero; flow_capacity := fzero;
     center_x := cx; center_y := cy; flags := 0 |}.

(** The tile array, [r] outer and [q] inner. *)
Definition generate_tiles (params : Params) (w : HexWorld) (qlo : Z) (qn : nat) (rlo : Z) (rn : nat)
  : list HexTile :=
  flat_map (fun r => map (fun q => assign_tile_defaults (Some params) w (fresh_tile w q r))
                         (zrange qlo qn))
           (zrange rlo rn).

(** [world = None] is a null [world] pointer, [params = None] a null
    [params] pointer; [alloc_ok] says whether [calloc] succeeds.  The
    result is the return value and the world left behind. *)
Definition hex_world_create (world : option HexWorld) (params : option Params) (alloc_ok : bool)
  : bool * option HexWorld :=
  match world with
  | None => (false, None)
  | Some _ =>
      match params with
      | None => (true, Some empty_world)
      | Some p =>
          let hp := hex p in
          if negb (enabled hp) then (true, Some empty_world) else
          let q_span := p_q_max hp - p_q_min hp + 1 in
          let r_span := p_r_max hp - p_r_min hp + 1 in
          if (q_span <=? 0) || (r_span <=? 0) then (false, Some empty_world) else
          let cnt := to_size (q_span * r_span) in
          let w1 := {| cell_size := p_cell_size hp; origin_x := p_origin_x hp;
                       origin_y := p_origin_y hp;
                       q_min := to_int16 (p_q_min hp); q_max := to_int16 (p_q_max hp);
                       r_min := to_int16 (p_r_min hp); r_max := to_int16 (p_r_max hp);
                       width := to_uint16 q_span; height := to_uint16 r_span;
                       count := cnt; tiles := None |} in
          if cnt =? 0 then (true, Some w1) else
          if negb alloc_ok then (false, Some w1) else
          let ts := generate_tiles p w1 (p_q_min hp) (Z.to_nat q_span)
                                        (p_r_min hp) (Z.to_nat r_span) in
          (true, Some {| cell_size := cell_size w1; origin_x := origin_x w1;
                         origin_y := origin_y w1; q_min := q_min w1; q_max := q_max w1;
                         r_min := r_min w1; r_max := r_max w1; width := width w1;
                         height := height w1; count := cnt; tiles := Some ts |})
      end
  end.

(** ** Lookup *)

Definition hex_world_in_bounds (world : option HexWorld) (q r : Z) : bool :=
  match world with
  | None => false
  | Some w =>
      match tiles w with
      | None => false
      | Some _ => (q_min w <=? q) && (q <=? q_max w) && (r_min w <=? r) && (r <=? r_max w)
      end
  end.

Definition hex_world_index (world : option HexWorld) (q r : Z) : Z :=
  match world with
  | Some w =>
      if hex_world_in_bounds world q r then
        let qi := to_size (q - q_min w) in
        let ri := to_size (r - r_min w) in
        to_size (ri * width w + qi)
      else SIZE_MAX
  | None => SIZE_MAX
  end.

(** [None] is the null pointer.  An index past the end of the array, which
    no in-bounds coordinate of a built world produces, also yields [None]. *)
Definition hex_world_tile (world : option HexWorld) (q r : Z) : option HexTile :=
  let index := hex_world_index world q r in
  match world with
  | None => None
  | Some w =>
      if index =? SIZE_MAX then None
      else match tiles w with
           | Some ts => nth_error ts (Z.to_nat index)
           | None => None
           end
  end.

(** ** Coordinate conversions *)

Definition hex_axial_to_world (world : option HexWorld) (q r : Z) : float * float :=
  match world with
  | Some w =>
      match tiles w with
      | Some _ =>
          let x := fadd (fmul (fmul SQRT3 (cell_size w)) (fadd (of_Z q) (fmul (of_Z r) c0_5)))
                        (origin_x w) in
          let y := fadd (fmul (fmul c1_5 (cell_size w)) (of_Z r)) (origin_y w) in
          (x, y)
      | None => (fzero, fzero)
      end
  | None => (fzero, fzero)
  end.

Definition hex_world_to_axial_f (world : option HexWorld) (world_x world_y : float) : float * float :=
  match world with
  | Some w =>
      if fle (cell_size w) c0 then (fzero, fzero) else
      let x := fsub world_x (origin_x w) in
      let y := fsub world_y (origin_y w) in
      let qf := fdiv (fsub (fmul (fdiv SQRT3 c3) x) (fmul (fdiv c1 c3) y)) (cell_size w) in
      let rf := fdiv (fmul (fdiv c2 c3) y) (cell_size w) in
      (qf, rf)
  | None => (fzero, fzero)
  end.

(** The three rounded cube coordinates and their rounding errors. *)
Definition cube_round_parts (qf rf : float) : (Z * Z * Z) * (float * float * float) :=
  let sf := fsub (fneg qf) rf in
  let q := lrintf_int qf in
  let r := lrintf_int rf in
  let s := lrintf_int sf in
  ((q, r, s), (fabs (fsub (of_Z q) qf), fabs (fsub (of_Z r) rf), fabs (fsub (of_Z s) sf))).

Definition hex_axial_round (qf rf : float) : Z * Z :=
  let '((q, r, s), (q_diff, r_diff, s_diff)) := cube_round_parts qf rf in
  if fgt q_diff r_diff && fgt q_diff s_diff then (to_int32 (- r - s), r)
  else if fgt r_diff s_diff then (q, to_int32 (- q - s))
  else (q, r).

Definition hex_world_pick (world : option HexWorld) (world_x world_y : float) : option (Z * Z * Z) :=
  match world with
  | None => None
  | Some w =>
      match tiles w with
      | None => None
      | Some _ =>
          let '(qf, rf) := hex_world_to_axial_f world world_x world_y in
          let '(q, r) := hex_axial_round qf rf in
          if negb (hex_world_in_bounds world q r) then None else
          let index := hex_world_index world q r in
          if index =? SIZE_MAX then None else Some (q, r, index)
      end
  end.

(** ** Values of floats *)

Definition is_finite (x : float) : bool :=
  match x with
  | S754_zero _ | S754_finite _ _ _ => true
  | _ => false
  end.

(** The real number denoted by a finite float (0 for the other cases). *)
Definition B2R (x : float) : R :=
  match x with
  | S754_finite s m e => ((if s then - IZR (Zpos m) else IZR (Zpos m)) * powerRZ 2 e)%R
  | _ => 0%R
  end.

(** [x <= y] on the values of two finite floats. *)
Definition Fle (x y : float) : Prop :=
  is_finite x = true /\ is_finite y = true /\ (B2R x <= B2R y)%R.

(** The float built by the last step of [binary_round_aux] from a
    non-negative mantissa [Q] and exponent [E]. *)
Definition mk_round (Q E : Z) : float :=
  match Q with
  | Z0 => S754_zero false
  | Zpos m => if E <=? emax - prec then S754_finite false m E else S754_infinity false
  | Zneg _ => S754_nan
  end.

(** Error bound of one rounding of the exact value [u]. *)
Definition Rerr (u : R) : R :=
  (3 * Rmax (Rabs u * powerRZ 2 (-23)) (powerRZ 2 (-149)))%R.

Definition fexp32 (e : Z) : Z := fexp prec emax e.

(** ** Definitions used by the error analysis *)

(** The shift register of [SpecFloat]: after [k] one-bit shifts of [M],
    the mantissa is [M / 2^k], and round and sticky bits are clear when
    nothing was shifted out. *)
Definition shr_inv (M k : Z) (mrs : shr_record) : Prop :=
  shr_m mrs = M / 2 ^ k /\ (M mod 2 ^ k = 0 -> shr_r mrs = false /\ shr_s mrs = false).

(** A positive finite float. *)
Definition pos_fin (x : float) : Prop := exists m e, x = S754_finite false m e.

(** [r] is a positive finite float within one rounding error of [u]. *)
Definition rnd_ok (r : float) (u : R) : Prop :=
  pos_fin r /\ (Rabs (B2R r - u) <= Rerr u)%R.

(** A positive normal float with its 24-bit mantissa. *)
Definition canon (x : float) : Prop :=
  exists m e, x = S754_finite false m e /\ 2 ^ 23 <= Zpos m < 2 ^ 24.

Definition rnd_canon (r : float) (u : R) : Prop :=
  canon r /\ (Rabs (B2R r - u) <= Rerr u)%R.

(** ** Properties and inputs named by the specification *)

(** The resource invariant of a tile, with the comparisons of C floats:
    [0 <= stock <= capacity], and [capacity == 0] implies [stock == 0]
    and [recharge == 0]. *)
Definition resource_ok (t : HexTile) : Prop :=
  Fle fzero (nectar_stock t) /\ Fle (nectar_stock t) (nectar_capacity t) /\
  (feq (nectar_capacity t) c0 = true ->
   feq (nectar_stock t) c0 = true /\ feq (nectar_recharge_rate t) c0 = true).

(** The hex part of [params_validate] (src/config/params.c). *)
Definition hex_params_validate (hp : HexParams) : bool :=
  let q_span := p_q_max hp - p_q_min hp + 1 in
  let r_span := p_r_max hp - p_r_min hp + 1 in
  negb (enabled hp) ||
  (negb (fle (p_cell_size hp) c0) &&
   (p_q_min hp <=? p_q_max hp) && (p_r_min hp <=? p_r_max hp) &&
   (-32768 <=? p_q_min hp) && (p_q_max hp <=? 32767) &&
   (-32768 <=? p_r_min hp) && (p_r_max hp <=? 32767) &&
   (0 <? q_span) && (0 <? r_span) && (q_span <=? 65535) && (r_span <=? 65535)).

(** [params_set_defaults] for the default 1280x720 window: cell size 48,
    origin at the window centre, [q_extent = 10], [r_extent = 7]. *)
Definition default_params : Params := {|
  hive := {| rect_x := of_Z 200; rect_y := of_Z 200; rect_w := of_Z 400; rect_h := of_Z 260;
             entrance_side := 1; entrance_t := c0_5; entrance_width := of_Z 120 |};
  hex := {| enabled := true; p_cell_size := of_Z 48;
            p_origin_x := of_Z 640; p_origin_y := of_Z 360;
            p_q_min := -10; p_q_max := 10; p_r_min := -7; p_r_max := 7 |} |}.

(** No colony: a zero-sized rectangle. *)
Definition no_hive : HiveParams := {|
  rect_x := fzero; rect_y := fzero; rect_w := fzero; rect_h := fzero;
  entrance_side := 1; entrance_t := c0_5; entrance_width := fzero |}.

(** Cell size 48, origin (0,0), box [-2,2] x [-2,2], no colony. *)
Definition small_params : Params := {|
  hive := no_hive;
  hex := {| enabled := true; p_cell_size := of_Z 48; p_origin_x := fzero; p_origin_y := fzero;
            p_q_min := -2; p_q_max := 2; p_r_min := -2; p_r_max := 2 |} |}.


(** A single cell (124,1), with cell size 1 and origin (0,0). *)
Definition flowers_cell_params : Params := {|
  hive := no_hive;
  hex := {| enabled := true; p_cell_size := of_Z 1; p_origin_x := fzero; p_origin_y := fzero;
            p_q_min := 124; p_q_max := 124; p_r_min := 1; p_r_max := 1 |} |}.

(** The world left by a successful [hex_world_create] on an initialised world. *)
Definition built (p : Params) : HexWorld :=
  match hex_world_create (Some empty_world) (Some p) true with
  | (_, Some w) => w
  | (_, None) => empty_world
  end.

Definition built_tiles (p : Params) : list HexTile :=
  match tiles (built p) with
  | Some ts => ts
  | None => []
  end.

(** [round_to_nearest_cell (world_to_axial_fractional (axial_to_world (q, r)))]. *)
Definition roundtrip (w : HexWorld) (q r : Z) : Z * Z :=
  let '(x, y) := hex_axial_to_world (Some w) q r in
  let '(qf, rf) := hex_world_to_axial_f (Some w) x y in
  hex_axial_round qf rf.

(** The round trip checked on every cell of the bounding box. *)
Definition roundtrip_box_ok (w : HexWorld) : bool :=
  forallb (fun r =>
    forallb (fun q => let '(q', r') := roundtrip w q r in (q' =? q) && (r' =? r))
            (zrange (q_min w) (Z.to_nat (q_max w - q_min w + 1))))
    (zrange (r_min w) (Z.to_nat (r_max w - r_min w + 1))).

(** ** hex_tile_palette (src/world/hex_world.c) *)

Definition HEX_TERRAIN_COUNT : Z := 7.

(** The [uint8_t] value stored in [HexTile.terrain] (include/hex.h). *)
Definition terrain_code (k : HexTerrain) : Z :=
  match k with
  | HEX_TERRAIN_OPEN => 0
  | HEX_TERRAIN_FOREST => 1
  | HEX_TERRAIN_MOUNTAIN => 2
  | HEX_TERRAIN_WATER => 3
  | HEX_TERRAIN_HIVE => 4
  | HEX_TERRAIN_FLOWERS => 5
  | HEX_TERRAIN_ENTRANCE => 6
  end.

Definition rgba : Type := (float * float * float * float)%type.

Definition palette : list rgba := [
  (flit 80 2, flit 82 2, flit 85 2, flit 65 2);   (* OPEN *)
  (flit 25 2, flit 56 2, flit 32 2, flit 80 2);   (* FOREST *)
  (flit 50 2, flit 40 2, flit 32 2, flit 80 2);   (* MOUNTAIN *)
  (flit 22 2, flit 45 2, flit 85 2, flit 75 2);   (* WATER *)
  (flit 90 2, flit 74 2, flit 24 2, flit 90 2);   (* HIVE *)
  (flit 94 2, flit 54 2, flit 74 2, flit 85 2);   (* FLOWERS *)
  (flit 35 2, flit 90 2, flit 95 2, flit 85 2)    (* ENTRANCE *)
].

(** The four floats written to a non-null [out_rgba] for the [uint8_t]
    argument [terrain]. *)
Definition hex_tile_palette (terrain : Z) : rgba :=
  let idx := if terrain <? HEX_TERRAIN_COUNT then terrain else 0 in
  nth (Z.to_nat idx) palette (fzero, fzero, fzero, fzero).

(** ** ensure_capacity (src/app/app.c) *)

(** The loop [while (new_capacity < desired) new_capacity *= 2;] on a
    [size_t], run for at most [fuel] iterations: [None] when it has not
    exited by then. *)
Fixpoint grow_capacity (fuel : nat) (desired new_capacity : Z) : option Z :=
  match fuel with
  | O => None
  | S fuel' =>
      if new_capacity <? desired
      then grow_capacity fuel' desired (to_size (new_capacity * 2))
      else Some new_capacity
  end.

(** [capacity] is [ctx->capacity] and [realloc_ok] says whether [realloc]
    succeeds.  The result is the return value and [ctx->capacity]
    afterwards; [None] when the loop is still running after [fuel]
    iterations. *)
Definition ensure_capacity (fuel : nat) (realloc_ok : bool) (capacity desired : Z)
  : option (bool * Z) :=
  if desired =? 0 then Some (true, capacity) else
  if desired <=? capacity then Some (true, capacity) else
  let new_capacity := if capacity =? 0 then 256 else capacity in
  match grow_capacity fuel desired new_capacity with
  | None => None
  | Some nc => if realloc_ok then Some (true, nc) else Some (false, capacity)
  end.

(** ** hex_draw_render (src/app/app.c), without its OpenGL calls *)

Record HexInstance := {
  inst_center : float * float;
  inst_scale : float;
  inst_color : rgba
}.

(** [RenderHexParams] (include/render_hex.h); [rh_world = None] is a null
    world pointer. *)
Record RenderHexParams := {
  rh_world : option HexWorld;
  rh_selected_index : Z;
  rh_enabled : bool;
  rh_draw_on_top : bool
}.

(** The instance written for a visible tile. *)
Definition tile_instance (w : HexWorld) (tile : HexTile) (is_selected : bool) : HexInstance :=
  let scale :=
    match terrain tile with
    | HEX_TERRAIN_ENTRANCE => fmul (cell_size w) (flit 102 2)
    | _ => cell_size w
    end in
  let '(c_r, c_g, c_b, c_a) := hex_tile_palette (terrain_code (terrain tile)) in
  let color :=
    if is_selected
    then (clampf (fmul c_r (flit 13 1)) c0 c1, clampf (fmul c_g (flit 13 1)) c0 c1,
          clampf (fmul c_b (flit 13 1)) c0 c1, c1)
    else (c_r, c_g, c_b, c_a) in
  {| inst_center := (center_x tile, center_y tile); inst_scale := scale; inst_color := color |}.

(** [highlight] as set from the selected instance. *)
Definition highlight_of (inst : HexInstance) : HexInstance :=
  {| inst_center := inst_center inst; inst_scale := fmul (inst_scale inst) (flit 103 2);
     inst_color := (c1, c1, c1, c1) |}.

Definition tile_visible (tile : HexTile) : bool :=
  negb (Z.land (flags tile) HEX_TILE_VISIBLE =? 0).

(** The second loop of [hex_draw_render] from tile index [i] on: the
    instances written at [cursor], in order, and the highlight
    ([Some] when [highlight_ready]) after the loop. *)
Fixpoint render_loop (w : HexWorld) (selected_valid : bool) (selected_index : Z) (i : Z)
    (ts : list HexTile) (highlight : option HexInstance) : list HexInstance * option HexInstance :=
  match ts with
  | [] => ([], highlight)
  | tile :: ts' =>
      if Z.land (flags tile) HEX_TILE_VISIBLE =? 0
      then render_loop w selected_valid selected_index (i + 1) ts' highlight
      else
        let is_selected := selected_valid && (i =? selected_index) in
        let inst := tile_instance w tile is_selected in
        let highlight' := if is_selected then Some (highlight_of inst) else highlight in
        let '(rest, h) := render_loop w selected_valid selected_index (i + 1) ts' highlight' in
        (inst :: rest, h)
  end.

(** The draw calls: the [visible_count] instances uploaded and drawn as
    filled hexagons, and the highlight drawn as an outline. *)
Record HexDrawCalls := {
  drawn : list HexInstance;
  outline : option HexInstance
}.

(** [ctx = None] is a null context and [Some capacity] a context with
    [ctx->capacity = capacity]; [params = None] is a null pointer.  The
    loops run over [world->tiles[0 .. count-1]].  The result is the return
    value, the context afterwards and the draw calls made; [None] when the
    loop of [ensure_capacity] is still running after [fuel] iterations. *)
Definition hex_draw_render (fuel : nat) (realloc_ok : bool) (ctx : option Z)
    (params : option RenderHexParams) (fb_width fb_height : Z) (cam_zoom : float)
  : option (bool * option Z * option HexDrawCalls) :=
  match ctx, params with
  | Some capacity, Some prm =>
      if negb (rh_enabled prm) then Some (false, ctx, None) else
      match rh_world prm with
      | None => Some (false, ctx, None)
      | Some w =>
          match tiles w with
          | None => Some (false, ctx, None)
          | Some ts =>
              if count w =? 0 then Some (false, ctx, None) else
              if (fb_width <=? 0) || (fb_height <=? 0) || fle cam_zoom c0
              then Some (false, ctx, None) else
              let shown := firstn (Z.to_nat (count w)) ts in
              let visible_count := Z.of_nat (length (filter tile_visible shown)) in
              if visible_count =? 0 then Some (false, ctx, None) else
              match ensure_capacity fuel realloc_ok capacity visible_count with
              | None => None
              | Some (false, cap) => Some (false, Some cap, None)
              | Some (true, cap) =>
                  let selected_valid :=
                    negb (rh_selected_index prm =? SIZE_MAX) && (rh_selected_index prm <? count w) in
                  let '(insts, hl) := render_loop w selected_valid (rh_selected_index prm) 0 shown None in
                  Some (true, Some cap, Some {| drawn := insts; outline := hl |})
              end
          end
      end
  | _, _ => Some (false, ctx, None)
  end.

(** ** The hex overlay of the application (src/app/app.c) *)

(** The globals [g_hex_world], [g_hex_show_grid], [g_hex_draw_on_top] and
    [g_hex_selected_index]. *)
Record AppHex := {
  g_hex_world : HexWorld;
  g_hex_show_grid : bool;
  g_hex_draw_on_top : bool;
  g_hex_selected_index : Z
}.

(** What [app_refresh_hex_overlay] passes on: the parameters given to
    [render_hex_set], the arguments of [ui_set_hex_overlay], and the tile
    given to [ui_set_selected_hex] ([None] for [NULL, false]). *)
Record OverlayOut := {
  render_params : RenderHexParams;
  ui_overlay : bool * bool;
  ui_selected : option HexTile
}.

Definition app_reset_hex_selection (s : AppHex) : AppHex * option HexTile :=
  ({| g_hex_world := g_hex_world s; g_hex_show_grid := g_hex_show_grid s;
      g_hex_draw_on_top := g_hex_draw_on_top s; g_hex_selected_index := SIZE_MAX |}, None).

(** [hex_enabled] is [g_params.hex.enabled]. *)
Definition app_refresh_hex_overlay (hex_enabled : bool) (s : AppHex) : AppHex * OverlayOut :=
  let w := g_hex_world s in
  let grid_requested := g_hex_show_grid s && hex_enabled in
  let grid_active :=
    grid_requested && match tiles w with Some _ => true | None => false end && (0 <? count w) in
  let selected_index :=
    if grid_active && (g_hex_selected_index s <? count w) then g_hex_selected_index s else SIZE_MAX in
  let prm := {| rh_world := if grid_active then Some w else None;
                rh_selected_index := selected_index;
                rh_enabled := grid_active;
                rh_draw_on_top := g_hex_draw_on_top s |} in
  let '(s', sel) :=
    if grid_active then
      if negb (selected_index =? SIZE_MAX)
      then (s, match tiles w with
               | Some ts => nth_error ts (Z.to_nat selected_index)
               | None => None
               end)
      else app_reset_hex_selection s
    else app_reset_hex_selection s in
  (s', {| render_params := prm; ui_overlay := (grid_requested, g_hex_draw_on_top s);
          ui_selected := sel |}).

(** [alloc_ok] says whether the [calloc] of [hex_world_create] succeeds. *)
Definition app_rebuild_hex_world (p : Params) (alloc_ok : bool) (s : AppHex) : AppHex * OverlayOut :=
  let w0 := empty_world in
  let w :=
    if enabled (hex p)
    then match snd (hex_world_create (Some w0) (Some p) alloc_ok) with
         | Some w' => w'
         | None => w0
         end
    else w0 in
  let show_grid := if negb (enabled (hex p)) then false else g_hex_show_grid s in
  app_refresh_hex_overlay (enabled (hex p))
    {| g_hex_world := w; g_hex_show_grid := show_grid;
       g_hex_draw_on_top := g_hex_draw_on_top s;
       g_hex_selected_index := g_hex_selected_index s |}.

(** The flow capacity that [assign_tile_defaults] writes with each terrain. *)
Definition terrain_flow (k : HexTerrain) : float :=
  match k with
  | HEX_TERRAIN_OPEN => c8
  | HEX_TERRAIN_FOREST => of_Z 6
  | HEX_TERRAIN_MOUNTAIN => c1_5
  | HEX_TERRAIN_WATER => c2
  | HEX_TERRAIN_HIVE => of_Z 35
  | HEX_TERRAIN_FLOWERS => of_Z 18
  | HEX_TERRAIN_ENTRANCE => of_Z 26
  end.

(** ** Predicates used by the statements below *)

(** A finite float of value in [[0, 1]]. *)
Definition in_unit (x : float) : Prop := Fle c0 x /\ Fle x c1.

Definition rgba_in_unit (c : rgba) : Prop :=
  let '(c_r, c_g, c_b, c_a) := c in in_unit c_r /\ in_unit c_g /\ in_unit c_b /\ in_unit c_a.

(** The boolean test of [canon]. *)
Definition canonb (x : float) : bool :=
  match x with
  | S754_finite false m _ => (2 ^ 23 <=? Zpos m) && (Zpos m <? 2 ^ 24)
  | _ => false
  end.

Definition unit_check (x : float) : bool := canonb x && negb (flt c1 x).

Definition rgba_check (c : rgba) : bool :=
  let '(c_r, c_g, c_b, c_a) := c in
  unit_check c_r && unit_check c_g && unit_check c_b && unit_check c_a.

(** A [size_t] capacity as [ensure_capacity] leaves it when it starts from
    zero: zero or a power of two. *)
Definition pow2_or_zero (c : Z) : Prop := c = 0 \/ exists k, 0 <= k <= 63 /\ c = 2 ^ k.

(** The pairs [(i, t)] of tile index and tile from index [i] on. *)
Fixpoint enumerate_from {A : Type} (i : Z) (l : list A) : list (Z * A) :=
  match l with
  | [] => []
  | x :: l' => (i, x) :: enumerate_from (i + 1) l'
  end.


(** * Rounding of binary32 *)

Lemma digits2_size p : digits2_pos p = Pos.size p.
Proof. induction p; simpl; congruence. Qed.

Lemma digits_bounds p :
  2 ^ (Zpos (digits2_pos p) - 1) <= Zpos p < 2 ^ Zpos (digits2_pos p).
Proof.
  rewrite digits2_size.
  pose proof (Pos.size_gt p) as Hgt. pose proof (Pos.size_le p) as Hle.
  apply Pos2Z.pos_lt_pos in Hgt. apply Pos2Z.pos_le_pos in Hle.
  rewrite Pos2Z.inj_pow in Hgt, Hle.
  replace (Zpos p~0) with (2 * Zpos p) in Hle by lia.
  split; [|exact Hgt].
  assert (E : 2 ^ Zpos (Pos.size p) = 2 * 2 ^ (Zpos (Pos.size p) - 1)).
  { rewrite <- Z.pow_succ_r by lia. f_equal. lia. }
  lia.
Qed.

Lemma digits_unique x k :
  2 ^ (k - 1) <= x < 2 ^ k -> 1 <= k -> Zdigits2 x = k.
Proof.
  intros [H1 H2] Hk. destruct x as [|p|p].
  - pose proof (Z.pow_pos_nonneg 2 (k - 1)). lia.
  - simpl. pose proof (digits_bounds p) as [D1 D2].
    set (d := Zpos (digits2_pos p)) in *.
    assert (0 < d) by (unfold d; lia).
    destruct (Z.lt_total d k) as [Hlt|[Heq|Hgt]]; auto.
    + assert (2 ^ d <= 2 ^ (k - 1)) by (apply Z.pow_le_mono_r; lia). lia.
    + assert (2 ^ k <= 2 ^ (d - 1)) by (apply Z.pow_le_mono_r; lia). lia.
  - pose proof (Z.pow_pos_nonneg 2 (k - 1)). lia.
Qed.

Lemma digits_le x k : 0 < x -> x <= 2 ^ k -> 0 <= k -> Zdigits2 x <= k + 1.
Proof.
  intros Hx Hle Hk. destruct x as [|p|p]; try lia. simpl.
  pose proof (digits_bounds p) as [D1 D2].
  destruct (Z.le_gt_cases (Zpos (digits2_pos p)) (k + 1)) as [?|Hgt]; auto.
  assert (2 ^ (k + 1) <= 2 ^ (Zpos (digits2_pos p) - 1)) by (apply Z.pow_le_mono_r; lia).
  rewrite Z.pow_add_r in H by lia. lia.
Qed.

Lemma digits_lt x k : 0 < x -> x < 2 ^ k -> 0 <= k -> Zdigits2 x <= k.
Proof.
  intros Hx Hlt Hk. destruct x as [|p|p]; try lia. simpl.
  pose proof (digits_bounds p) as [D1 D2].
  destruct (Z.le_gt_cases (Zpos (digits2_pos p)) k) as [?|Hgt]; auto.
  assert (2 ^ k <= 2 ^ (Zpos (digits2_pos p) - 1)) by (apply Z.pow_le_mono_r; lia). lia.
Qed.


Lemma shr_1_spec mrs :
  0 <= shr_m mrs ->
  shr_m (shr_1 mrs) = shr_m mrs / 2 /\ shr_r (shr_1 mrs) = Z.odd (shr_m mrs) /\
  shr_s (shr_1 mrs) = (shr_r mrs || shr_s mrs).
Proof.
  destruct mrs as [m r s]; simpl; intros H.
  destruct m as [|p|p]; [simpl; auto| |lia].
  destruct p; simpl; (split; [|split]); auto; rewrite <- Z.div2_div; reflexivity.
Qed.

Lemma shr_inv_step M k mrs :
  0 <= M -> 0 <= k -> shr_inv M k mrs -> shr_inv M (k + 1) (shr_1 mrs).
Proof.
  intros HM Hk [Hm Hf].
  assert (Hp : 0 < 2 ^ k) by (apply Z.pow_pos_nonneg; lia).
  assert (H0 : 0 <= shr_m mrs) by (rewrite Hm; apply Z.div_pos; lia).
  destruct (shr_1_spec mrs H0) as (E1 & E2 & E3).
  split.
  - rewrite E1, Hm, Z.div_div by lia. rewrite Z.pow_add_r, Z.pow_1_r by lia. reflexivity.
  - intros Hmod. rewrite E2, E3.
    apply Z.mod_divide in Hmod; [|apply Z.pow_nonzero; lia].
    destruct Hmod as [c Hc]. rewrite Z.pow_add_r, Z.pow_1_r in Hc by lia.
    assert (Hc' : M = (2 * c) * 2 ^ k) by lia.
    assert (Hmk : M mod 2 ^ k = 0) by (rewrite Hc'; apply Z.mod_mul; lia).
    destruct (Hf Hmk) as [-> ->]. rewrite Hm, Hc', Z.div_mul by lia.
    split; [rewrite Z.odd_mul; reflexivity | reflexivity].
Qed.

Lemma shr_inv_iter M p :
  0 <= M -> forall mrs k, 0 <= k -> shr_inv M k mrs -> shr_inv M (k + Zpos p) (SpecFloat.iter_pos shr_1 p mrs).
Proof.
  intros HM. induction p as [p IH|p IH|]; intros mrs k Hk Hi; simpl.
  - apply shr_inv_step in Hi; auto.
    apply IH in Hi; [|lia]. apply IH in Hi; [|lia].
    replace (k + Zpos p~1) with (k + 1 + Zpos p + Zpos p) by lia. exact Hi.
  - apply IH in Hi; auto. apply IH in Hi; [|lia].
    replace (k + Zpos p~0) with (k + Zpos p + Zpos p) by lia. exact Hi.
  - apply shr_inv_step; auto.
Qed.

Lemma shr_fexp_exact m e :
  0 <= m ->
  let '(mrs, e') := shr_fexp prec emax m e loc_Exact in
  e' = Z.max e (fexp32 (Zdigits2 m + e)) /\ shr_inv m (e' - e) mrs.
Proof.
  intros Hm. unfold shr_fexp, shr, fexp32. simpl shr_record_of_loc.
  assert (I0 : shr_inv m 0 {| shr_m := m; shr_r := false; shr_s := false |}).
  { split; simpl; [symmetry; apply Z.div_1_r | auto]. }
  destruct (fexp prec emax (Zdigits2 m + e) - e) eqn:E.
  - split; [lia|]. replace (e - e) with 0 by lia. exact I0.
  - split; [lia|]. replace (e + Zpos p - e) with (0 + Zpos p) by lia.
    apply shr_inv_iter; auto; lia.
  - split; [lia|]. replace (e - e) with 0 by lia. exact I0.
Qed.

Lemma rne_bounds m l : m <= round_nearest_even m l <= m + 1.
Proof.
  destruct l as [|c]; simpl; [lia|].
  destruct c; try lia. destruct (Z.even m); lia.
Qed.

Lemma fexp32_eq x : fexp32 x = Z.max (x - 24) (-149).
Proof. reflexivity. Qed.

Lemma round_aux_exact (p : positive) e :
  fexp32 (Zpos (digits2_pos p) + e) <= e ->
  binary_round_aux prec emax false (Zpos p) e loc_Exact = mk_round (Zpos p) e.
Proof.
  intros HF. unfold binary_round_aux.
  pose proof (shr_fexp_exact (Zpos p) e ltac:(lia)) as S1.
  destruct (shr_fexp prec emax (Zpos p) e loc_Exact) as [mrs1 e1] eqn:E1.
  destruct S1 as [He1 [Hm1 Hf1]]. simpl Zdigits2 in He1.
  assert (e1 = e) by lia. clear He1. subst e1.
  rewrite Z.sub_diag, Z.pow_0_r, Z.div_1_r in Hm1. rewrite Z.sub_diag, Z.pow_0_r in Hf1.
  destruct (Hf1 (Z.mod_1_r _)) as [Hr Hs].
  assert (Hloc : loc_of_shr_record mrs1 = loc_Exact)
    by (destruct mrs1; simpl in *; subst; reflexivity).
  rewrite Hloc, Hm1. change (round_nearest_even (Zpos p) loc_Exact) with (Zpos p).
  rewrite E1, Hm1.
  reflexivity.
Qed.

Lemma div_bounds x a : 0 < a -> a * (x / a) <= x < a * (x / a) + a.
Proof.
  intros Ha. pose proof (Z.div_mod x a ltac:(lia)). pose proof (Z.mod_pos_bound x a Ha). lia.
Qed.

Lemma round_aux_approx (p : positive) e :
  let F := fexp32 (Zpos (digits2_pos p) + e) in
  e < F ->
  exists Q E, 0 <= Q /\ F <= E <= F + 1 /\
    binary_round_aux prec emax false (Zpos p) e loc_Exact = mk_round Q E /\
    Z.abs (Q * 2 ^ (E - e) - Zpos p) <= 3 * 2 ^ (F - e) /\
    (Zpos p mod 2 ^ (F - e) = 0 -> Q = Zpos p / 2 ^ (F - e) /\ E = F) /\
    (-149 <= Zpos (digits2_pos p) + e - 24 -> 2 ^ 23 <= Q < 2 ^ 24).
Proof.
  intros F HF. unfold binary_round_aux.
  pose proof (shr_fexp_exact (Zpos p) e ltac:(lia)) as S1.
  destruct (shr_fexp prec emax (Zpos p) e loc_Exact) as [mrs1 e1] eqn:E1.
  destruct S1 as [He1 [Hm1 Hf1]]. simpl Zdigits2 in He1.
  assert (e1 = F) by (unfold F; lia). clear He1. subst e1.
  pose proof (digits_bounds p) as [D1 D2].
  set (d := Zpos (digits2_pos p)) in *.
  assert (HFd : F = Z.max (d + e - 24) (-149)) by reflexivity.
  set (a := F - e) in *.
  assert (Ha : 0 < 2 ^ a) by (apply Z.pow_pos_nonneg; lia).
  set (q := Zpos p / 2 ^ a) in *.
  pose proof (div_bounds (Zpos p) (2 ^ a) Ha) as Dq. fold q in Dq.
  assert (Hq0 : 0 <= q) by (apply Z.div_pos; lia).
  set (q' := round_nearest_even (shr_m mrs1) (loc_of_shr_record mrs1)).
  assert (Hq' : q <= q' <= q + 1) by (unfold q'; rewrite Hm1; apply rne_bounds).
  (* [q + 1] fits in [max (d - a) 0] bits *)
  set (k := Z.max (d - a) 0).
  assert (Hk : q + 1 <= 2 ^ k).
  { destruct (Z.le_gt_cases 0 (d - a)) as [Hda|Hda].
    - assert (2 ^ d = 2 ^ a * 2 ^ (d - a)) by (rewrite <- Z.pow_add_r by lia; f_equal; lia).
      assert (q < 2 ^ (d - a)) by (apply Z.div_lt_upper_bound; lia).
      unfold k; rewrite Z.max_l by lia; lia.
    - assert (2 ^ d <= 2 ^ a) by (apply Z.pow_le_mono_r; lia).
      assert (q = 0) by (apply Z.div_small; lia).
      unfold k; rewrite Z.max_r by lia; simpl; lia. }
  pose proof (shr_fexp_exact q' F ltac:(lia)) as S2.
  destruct (shr_fexp prec emax q' F loc_Exact) as [mrs2 e2] eqn:E2.
  destruct S2 as [He2 [Hm2 Hf2]].
  assert (Hb : F <= e2 <= F + 1).
  { rewrite He2. split; [lia|]. apply Z.max_lub; [lia|].
    rewrite fexp32_eq.
    destruct (Z.eq_dec q' 0) as [Z0q|NZq].
    - rewrite Z0q. simpl Zdigits2. lia.
    - pose proof (digits_le q' k ltac:(lia) ltac:(lia) ltac:(lia)).
      unfold k in *. lia. }
  exists (shr_m mrs2), e2.
  assert (HQ0 : 0 <= shr_m mrs2) by (rewrite Hm2; apply Z.div_pos; [lia| apply Z.pow_pos_nonneg; lia]).
  split; [exact HQ0|]. split; [exact Hb|]. split.
  { unfold mk_round. destruct (shr_m mrs2); reflexivity. }
  split.
  - set (b := e2 - F) in *.
    assert (Hbv : b = 0 \/ b = 1) by lia.
    pose proof (div_bounds q' (2 ^ b) ltac:(apply Z.pow_pos_nonneg; lia)) as DQ.
    rewrite <- Hm2 in DQ.
    replace (e2 - e) with (b + a) by lia. rewrite Z.pow_add_r by lia.
    set (Q := shr_m mrs2) in *.
    assert (T1 : 2 ^ b * Q * 2 ^ a <= q' * 2 ^ a) by (apply Z.mul_le_mono_nonneg_r; lia).
    assert (T2 : q' * 2 ^ a < (2 ^ b * Q + 2 ^ b) * 2 ^ a) by (apply Z.mul_lt_mono_pos_r; lia).
    assert (T3 : q * 2 ^ a <= q' * 2 ^ a <= (q + 1) * 2 ^ a) by (split; apply Z.mul_le_mono_nonneg_r; lia).
    destruct Hbv as [-> | ->]; simpl Z.pow in *; lia.
  - split.
    2:{ intros Hn. fold d in Hn.
    assert (HFn : F = d + e - 24) by lia.
    assert (Ea : a = d - 24) by (unfold a; lia).
    assert (P23 : 2 ^ (d - 1) = 2 ^ a * 2 ^ 23) by (rewrite <- Z.pow_add_r by lia; f_equal; lia).
    assert (P24 : 2 ^ d = 2 ^ a * 2 ^ 24) by (rewrite <- Z.pow_add_r by lia; f_equal; lia).
    assert (Hq1 : 2 ^ 23 <= q).
    { destruct (Z.le_gt_cases (2 ^ 23) q) as [|Hl]; [lia|].
      assert (2 ^ a * (q + 1) <= 2 ^ a * 2 ^ 23) by (apply Z.mul_le_mono_nonneg_l; lia). lia. }
    assert (Hq2 : q < 2 ^ 24).
    { destruct (Z.le_gt_cases (2 ^ 24) q) as [Hl|]; [|lia].
      assert (2 ^ a * 2 ^ 24 <= 2 ^ a * q) by (apply Z.mul_le_mono_nonneg_l; lia). lia. }
    rewrite Hm2.
    destruct (Z.eq_dec q' (2 ^ 24)) as [Eq24|Ne24].
    * assert (Hd2 : Zdigits2 q' = 25) by (apply digits_unique; [rewrite Eq24; simpl; lia|lia]).
      rewrite Hd2, fexp32_eq in He2.
      assert (e2 = F + 1) by lia.
      replace (e2 - F) with 1 by lia. rewrite Eq24. change (2 ^ 24 / 2 ^ 1) with (2 ^ 23). lia.
    * assert (Hd2 : Zdigits2 q' = 24) by (apply digits_unique; [simpl; lia|lia]).
      rewrite Hd2, fexp32_eq in He2.
      assert (e2 = F) by lia.
      replace (e2 - F) with 0 by lia. rewrite Z.pow_0_r, Z.div_1_r. lia. }
    intros Hmod. destruct (Hf1 Hmod) as [Hr Hs].
    assert (Hloc : loc_of_shr_record mrs1 = loc_Exact)
      by (destruct mrs1; simpl in *; subst; reflexivity).
    assert (Eq' : q' = q) by (unfold q'; rewrite Hloc, Hm1; reflexivity).
    assert (Hpa : Zpos p = 2 ^ a * q).
    { pose proof (Z.div_mod (Zpos p) (2 ^ a) ltac:(lia)). fold q in H. lia. }
    assert (Hqpos : 0 < q) by nia.
    assert (Hda : a < d).
    { destruct (Z.le_gt_cases d a) as [Hda|Hda]; [|lia].
      assert (2 ^ d <= 2 ^ a) by (apply Z.pow_le_mono_r; lia). nia. }
    assert (Hqd : Zdigits2 q <= d - a).
    { apply digits_lt; [lia| |lia].
      assert (2 ^ d = 2 ^ a * 2 ^ (d - a)) by (rewrite <- Z.pow_add_r by lia; f_equal; lia).
      apply Z.div_lt_upper_bound; lia. }
    assert (He2F : e2 = F).
    { rewrite He2, Eq'. apply Z.max_l. rewrite fexp32_eq. lia. }
    split; [|exact He2F].
    rewrite Hm2, He2F, Z.sub_diag, Z.pow_0_r, Z.div_1_r. exact Eq'.
Qed.

(** ** Real-valued error bounds *)

Lemma bpow_plus a b : powerRZ 2 (a + b) = (powerRZ 2 a * powerRZ 2 b)%R.
Proof. apply powerRZ_add. lra. Qed.

Lemma bpow_pos a : (0 < powerRZ 2 a)%R.
Proof. apply powerRZ_lt. lra. Qed.

Lemma IZR_pow2 k : 0 <= k -> IZR (2 ^ k) = powerRZ 2 k.
Proof.
  intros Hk. destruct k as [|p|p]; [reflexivity| |lia].
  simpl powerRZ. rewrite pow_IZR, positive_nat_Z. reflexivity.
Qed.

Lemma bpow_le a b : a <= b -> (powerRZ 2 a <= powerRZ 2 b)%R.
Proof.
  intros H. replace b with (a + (b - a)) by lia. rewrite bpow_plus.
  rewrite <- (IZR_pow2 (b - a)) by lia. pose proof (bpow_pos a).
  assert (1 <= 2 ^ (b - a)) by (assert (0 < 2 ^ (b - a)) by (apply Z.pow_pos_nonneg; lia); lia).
  apply IZR_le in H1. rewrite <- (Rmult_1_r (powerRZ 2 a)) at 1.
  apply Rmult_le_compat_l; [lra | exact H1].
Qed.

Lemma Rerr_nonneg u : (0 <= Rerr u)%R.
Proof.
  unfold Rerr. pose proof (bpow_pos (-149)).
  pose proof (Rmax_r (Rabs u * powerRZ 2 (-23)) (powerRZ 2 (-149))). lra.
Qed.

Lemma Rerr_le u : (Rerr u <= 3 * (Rabs u * powerRZ 2 (-23)) + 3 * powerRZ 2 (-149))%R.
Proof.
  unfold Rerr. pose proof (bpow_pos (-149)). pose proof (bpow_pos (-23)).
  pose proof (Rabs_pos u).
  apply Rmax_case_strong; intros; nra.
Qed.

Lemma Rerr_abs u : Rerr (- u) = Rerr u.
Proof. unfold Rerr. rewrite Rabs_Ropp. reflexivity. Qed.


Lemma B2R_mk_round Q E :
  0 <= Q -> is_finite (mk_round Q E) = true -> B2R (mk_round Q E) = (IZR Q * powerRZ 2 E)%R.
Proof.
  intros HQ Hf. destruct Q as [|m|m]; simpl in *; [lra| |lia].
  destruct (E <=? _); simpl in *; [reflexivity|discriminate].
Qed.

Lemma mk_round_not_nan Q E : 0 <= Q -> mk_round Q E <> S754_nan.
Proof.
  intros HQ. destruct Q; simpl; try lia; try discriminate.
  destruct (E <=? _); discriminate.
Qed.

Lemma mk_round_inf Q E : 0 <= Q -> is_finite (mk_round Q E) = false -> 0 < Q /\ emax - prec < E.
Proof.
  intros HQ. destruct Q as [|m|m]; simpl; try discriminate; try lia.
  destruct (E <=? _) eqn:H; simpl; try discriminate.
  intros _. split; [lia|]. apply Z.leb_gt in H. exact H.
Qed.

Lemma round_aux_R (p : positive) e :
  let u := (IZR (Zpos p) * powerRZ 2 e)%R in
  let r := binary_round_aux prec emax false (Zpos p) e loc_Exact in
  r <> S754_nan /\
  (is_finite r = true -> (Rabs (B2R r - u) <= Rerr u)%R) /\
  (is_finite r = false -> (powerRZ 2 104 <= u)%R).
Proof.
  intros u r.
  pose proof (digits_bounds p) as [D1 D2].
  set (d := Zpos (digits2_pos p)) in *.
  assert (Hd : 1 <= d) by (unfold d; lia).
  assert (Hu0 : (powerRZ 2 (d - 1 + e) <= u)%R).
  { unfold u. rewrite bpow_plus, <- IZR_pow2 by lia.
    apply Rmult_le_compat_r; [apply Rlt_le, bpow_pos| apply IZR_le; lia]. }
  destruct (Z_le_gt_dec (fexp32 (d + e)) e) as [Hex|Happ].
  - assert (Er : r = mk_round (Zpos p) e) by (apply round_aux_exact; exact Hex).
    rewrite Er. split; [apply mk_round_not_nan; lia|]. split.
    + intros Hf. rewrite B2R_mk_round by (auto; lia). fold u.
      rewrite Rminus_diag, Rabs_R0. apply Rerr_nonneg.
    + intros Hf. apply mk_round_inf in Hf; [|lia]. unfold prec, emax in Hf.
      eapply Rle_trans; [|exact Hu0]. apply bpow_le. lia.
  - destruct (round_aux_approx p e ltac:(unfold d in Happ; lia)) as (Q & E & HQ & HE & Er & Herr & _).
    fold d in HE, Herr. set (F := fexp32 (d + e)) in *.
    fold r in Er. rewrite Er. split; [apply mk_round_not_nan; lia|]. split.
    + intros Hf. rewrite B2R_mk_round by auto.
      assert (Ediff : (IZR Q * powerRZ 2 E - u =
                       powerRZ 2 e * IZR (Q * 2 ^ (E - e) - Zpos p))%R).
      { unfold u. rewrite minus_IZR, mult_IZR, IZR_pow2 by lia.
        replace E with (e + (E - e)) at 1 by lia. rewrite bpow_plus. ring. }
      rewrite Ediff, Rabs_mult, (Rabs_pos_eq (powerRZ 2 e)) by (apply Rlt_le, bpow_pos).
      rewrite <- abs_IZR.
      apply IZR_le in Herr. rewrite mult_IZR, IZR_pow2 in Herr by lia.
      assert (HF2 : (powerRZ 2 e * (3 * powerRZ 2 (F - e)) = 3 * powerRZ 2 F)%R).
      { replace F with (e + (F - e)) at 2 by lia. rewrite bpow_plus. ring. }
      assert (HFb : (powerRZ 2 F <= Rmax (Rabs u * powerRZ 2 (-23)) (powerRZ 2 (-149)))%R).
      { assert (HFd : F = Z.max (d + e - 24) (-149)) by (unfold F; apply fexp32_eq).
        destruct (Z.max_spec (d + e - 24) (-149)) as [[_ Hm]|[_ Hm]]; rewrite Hm in HFd.
        - rewrite HFd. apply Rmax_r.
        - eapply Rle_trans; [|apply Rmax_l].
          rewrite HFd. replace (d + e - 24) with ((d - 1 + e) + (-23)) by lia.
          rewrite bpow_plus. apply Rmult_le_compat_r; [apply Rlt_le, bpow_pos|].
          rewrite Rabs_pos_eq; [exact Hu0|]. pose proof (bpow_pos (d - 1 + e)). lra. }
      unfold Rerr.
      pose proof (bpow_pos e).
      apply Rle_trans with (powerRZ 2 e * (3 * powerRZ 2 (F - e)))%R; [|lra].
      apply Rmult_le_compat_l; lra.
    + intros Hf. apply mk_round_inf in Hf; [|lia]. unfold prec, emax in Hf.
      assert (HFd : F = Z.max (d + e - 24) (-149)) by (unfold F; apply fexp32_eq).
      eapply Rle_trans; [|exact Hu0]. apply bpow_le. lia.
Qed.


Lemma iter_xO (m d : positive) : Zpos (Pos.iter xO m d) = Zpos m * 2 ^ Zpos d.
Proof.
  induction d as [|d IH] using Pos.peano_ind; [simpl; lia|].
  rewrite Pos.iter_succ. remember (Pos.iter xO m d) as y.
  rewrite (Pos2Z.inj_xO y), IH, Pos2Z.inj_succ, Z.pow_succ_r by lia. ring.
Qed.

Lemma shl_align_R mx ex e0 :
  (IZR (Zpos (fst (shl_align mx ex e0))) * powerRZ 2 (snd (shl_align mx ex e0))
   = IZR (Zpos mx) * powerRZ 2 ex)%R.
Proof.
  unfold shl_align. destruct (e0 - ex) as [|d|d] eqn:H; simpl; auto.
  rewrite iter_xO, mult_IZR, IZR_pow2 by lia.
  replace ex with (e0 + Zpos d) by lia. rewrite bpow_plus. ring.
Qed.

Lemma shl_align_snd mx ex e0 : e0 <= ex -> snd (shl_align mx ex e0) = e0.
Proof. intros H. unfold shl_align. destruct (e0 - ex) eqn:E; simpl; lia. Qed.

Lemma round_aux_mk p e :
  exists Q E, 0 <= Q /\ binary_round_aux prec emax false (Zpos p) e loc_Exact = mk_round Q E.
Proof.
  destruct (Z_le_gt_dec (fexp32 (Zpos (digits2_pos p) + e)) e) as [H|H].
  - exists (Zpos p), e. split; [lia|]. apply round_aux_exact; exact H.
  - destruct (round_aux_approx p e ltac:(lia)) as (Q & E & HQ & _ & Er & _).
    exists Q, E. auto.
Qed.

Lemma Rerr_lt u : (powerRZ 2 (-140) <= u -> Rerr u < u)%R.
Proof.
  intros Hu. pose proof (Rerr_le u).
  replace (-149) with (-140 + -9) in H by lia. rewrite bpow_plus in H.
  assert (E9 : powerRZ 2 (-9) = (/ 512)%R) by (simpl; lra).
  assert (E23 : powerRZ 2 (-23) = (/ 8388608)%R) by (simpl; lra).
  rewrite E9, E23 in H. pose proof (bpow_pos (-140)).
  rewrite Rabs_pos_eq in H by lra. lra.
Qed.

Lemma round_aux_ok p e :
  (powerRZ 2 (-140) <= IZR (Zpos p) * powerRZ 2 e < powerRZ 2 104)%R ->
  rnd_ok (binary_round_aux prec emax false (Zpos p) e loc_Exact) (IZR (Zpos p) * powerRZ 2 e).
Proof.
  intros [H1 H2]. destruct (round_aux_R p e) as (_ & Hf & Hi).
  destruct (round_aux_mk p e) as (Q & E & HQ & Er). rewrite Er in *.
  pose proof (Rerr_lt _ H1).
  destruct Q as [|m|m]; [|simpl in *|lia].
  - specialize (Hf eq_refl). simpl in Hf. rewrite Rminus_0_l, Rabs_Ropp in Hf.
    rewrite Rabs_pos_eq in Hf by (pose proof (bpow_pos (-140)); lra). lra.
  - destruct (E <=? _).
    + split; [do 2 eexists; reflexivity|]. apply Hf; reflexivity.
    + specialize (Hi eq_refl). lra.
Qed.

Lemma binary_round_ok mx ex :
  (powerRZ 2 (-140) <= IZR (Zpos mx) * powerRZ 2 ex < powerRZ 2 104)%R ->
  rnd_ok (binary_round prec emax false mx ex) (IZR (Zpos mx) * powerRZ 2 ex).
Proof.
  unfold binary_round.
  pose proof (shl_align_R mx ex (fexp prec emax (Zpos (digits2_pos mx) + ex))) as Hv.
  destruct (shl_align mx ex _) as [mz ez]. simpl in Hv. rewrite <- Hv.
  apply round_aux_ok.
Qed.

Lemma B2R_pos m e : B2R (S754_finite false m e) = (IZR (Zpos m) * powerRZ 2 e)%R.
Proof. reflexivity. Qed.

Lemma B2R_pos_gt m e : (0 < B2R (S754_finite false m e))%R.
Proof. rewrite B2R_pos. pose proof (bpow_pos e). pose proof (IZR_lt 0 (Zpos m) eq_refl). nra. Qed.

Lemma fmul_ok x y :
  pos_fin x -> pos_fin y ->
  (powerRZ 2 (-140) <= B2R x * B2R y < powerRZ 2 104)%R ->
  rnd_ok (fmul x y) (B2R x * B2R y).
Proof.
  intros (mx & ex & ->) (my & ey & ->). rewrite !B2R_pos.
  replace (IZR (Zpos mx) * powerRZ 2 ex * (IZR (Zpos my) * powerRZ 2 ey))%R
    with (IZR (Zpos (mx * my)) * powerRZ 2 (ex + ey))%R
    by (rewrite Pos2Z.inj_mul, mult_IZR, bpow_plus; ring).
  apply round_aux_ok.
Qed.

Lemma fadd_shape x y :
  pos_fin x -> pos_fin y ->
  exists c ez, fadd x y = binary_round prec emax false c ez /\
               (IZR (Zpos c) * powerRZ 2 ez = B2R x + B2R y)%R.
Proof.
  intros (mx & ex & ->) (my & ey & ->). unfold fadd, SFadd. cbv zeta.
  set (ez := Z.min ex ey).
  pose proof (shl_align_R mx ex ez) as Ha. pose proof (shl_align_R my ey ez) as Hb.
  rewrite shl_align_snd in Ha, Hb by (unfold ez; lia).
  destruct (shl_align mx ex ez) as [a ea]. destruct (shl_align my ey ez) as [b eb].
  simpl fst in *. simpl cond_Zopp.
  exists (a + b)%positive, ez. split; [reflexivity|].
  rewrite !B2R_pos, <- Ha, <- Hb, Pos2Z.inj_add, plus_IZR. ring.
Qed.

Lemma fsub_shape x y :
  pos_fin x -> pos_fin y -> (B2R y < B2R x)%R ->
  exists c ez, fsub x y = binary_round prec emax false c ez /\
               (IZR (Zpos c) * powerRZ 2 ez = B2R x - B2R y)%R.
Proof.
  intros (mx & ex & ->) (my & ey & ->). unfold fsub, SFsub. cbv zeta.
  set (ez := Z.min ex ey).
  pose proof (shl_align_R mx ex ez) as Ha. pose proof (shl_align_R my ey ez) as Hb.
  rewrite shl_align_snd in Ha, Hb by (unfold ez; lia).
  destruct (shl_align mx ex ez) as [a ea]. destruct (shl_align my ey ez) as [b eb].
  simpl fst in *. simpl cond_Zopp.
  rewrite !B2R_pos, <- Ha, <- Hb.
  replace (IZR (Zpos a) * powerRZ 2 ez - IZR (Zpos b) * powerRZ 2 ez)%R
    with (IZR (Zpos a - Zpos b) * powerRZ 2 ez)%R
    by (rewrite minus_IZR; ring).
  intros H. apply Rmult_lt_reg_r in H; [|apply bpow_pos]. apply lt_IZR in H.
  destruct (Zpos a - Zpos b) as [|c|c] eqn:D; [lia| |lia].
  exists c, ez. split; reflexivity.
Qed.

Lemma fadd_ok x y :
  pos_fin x -> pos_fin y ->
  (powerRZ 2 (-140) <= B2R x + B2R y < powerRZ 2 104)%R ->
  rnd_ok (fadd x y) (B2R x + B2R y).
Proof.
  intros Px Py H. destruct (fadd_shape x y Px Py) as (c & ez & -> & Hv).
  rewrite <- Hv in *. apply binary_round_ok. exact H.
Qed.

Lemma fsub_ok x y :
  pos_fin x -> pos_fin y ->
  (powerRZ 2 (-140) <= B2R x - B2R y < powerRZ 2 104)%R ->
  rnd_ok (fsub x y) (B2R x - B2R y).
Proof.
  intros Px Py H. pose proof (bpow_pos (-140)).
  destruct (fsub_shape x y Px Py ltac:(lra)) as (c & ez & -> & Hv).
  rewrite <- Hv in *. apply binary_round_ok. exact H.
Qed.

Lemma shl_align_Z mx ex e0 :
  e0 <= ex -> Zpos (fst (shl_align mx ex e0)) = Zpos mx * 2 ^ (ex - e0) /\ snd (shl_align mx ex e0) = e0.
Proof.
  intros H. unfold shl_align. destruct (e0 - ex) as [|d|d] eqn:E; cbn [fst snd].
  - replace (ex - e0) with 0 by lia. rewrite Z.pow_0_r. split; lia.
  - lia.
  - split; [|reflexivity]. rewrite iter_xO. f_equal. f_equal. lia.
Qed.

Lemma of_Z_small k :
  Zpos k < 2 ^ 24 ->
  exists m e, of_Z (Zpos k) = S754_finite false m e /\ Zpos m = Zpos k * 2 ^ (- e) /\
              -23 <= e <= 0 /\ 2 ^ 23 <= Zpos m < 2 ^ 24.
Proof.
  intros Hk. pose proof (digits_bounds k) as [D1 D2].
  set (d := Zpos (digits2_pos k)) in *.
  assert (Hd : 1 <= d <= 24).
  { split; [unfold d; lia|]. destruct (Z_le_gt_dec d 24) as [|Hg]; [lia|].
    assert (2 ^ 24 <= 2 ^ (d - 1)) by (apply Z.pow_le_mono_r; lia). lia. }
  unfold of_Z, binary_normalize, binary_round.
  change (fexp prec emax (Zpos (digits2_pos k) + 0)) with (fexp32 (d + 0)).
  rewrite fexp32_eq. replace (Z.max (d + 0 - 24) (-149)) with (d - 24) by lia.
  destruct (shl_align_Z k 0 (d - 24) ltac:(lia)) as [Hm He].
  destruct (shl_align k 0 (d - 24)) as [mz ez]. cbn [fst snd] in Hm, He. subst ez.
  replace (0 - (d - 24)) with (24 - d) in Hm by lia.
  assert (Hb : 2 ^ 23 <= Zpos mz < 2 ^ 24).
  { rewrite Hm.
    assert (E23 : 2 ^ 23 = 2 ^ (d - 1) * 2 ^ (24 - d)) by (rewrite <- Z.pow_add_r by lia; f_equal; lia).
    assert (E24 : 2 ^ 24 = 2 ^ d * 2 ^ (24 - d)) by (rewrite <- Z.pow_add_r by lia; f_equal; lia).
    assert (0 < 2 ^ (24 - d)) by (apply Z.pow_pos_nonneg; lia).
    rewrite E23, E24. split; apply Z.mul_le_mono_nonneg_r || apply Z.mul_lt_mono_pos_r; lia. }
  assert (Hdz : Zpos (digits2_pos mz) = 24).
  { change (Zpos (digits2_pos mz)) with (Zdigits2 (Zpos mz)). apply digits_unique; [exact Hb|lia]. }
  rewrite round_aux_exact by (rewrite Hdz, fexp32_eq; lia).
  exists mz, (d - 24). split.
  - unfold mk_round. replace (d - 24 <=? emax - prec) with true by (symmetry; apply Z.leb_le; unfold emax, prec; lia). reflexivity.
  - split; [rewrite Hm; f_equal; f_equal; lia|]. split; [lia|exact Hb].
Qed.

Lemma of_Z_2_24 : of_Z 16777216 = S754_finite false 8388608 1.
Proof. vm_compute. reflexivity. Qed.

Lemma fdiv_2_24 m e :
  -23 <= e <= 0 -> 2 ^ 23 <= Zpos m < 2 ^ 24 ->
  fdiv (S754_finite false m e) (S754_finite false 8388608 1) = S754_finite false m (e - 24).
Proof.
  intros He Hm.
  assert (Hd1 : Zdigits2 (Zpos m) = 24) by (apply digits_unique; [exact Hm|lia]).
  unfold fdiv, SFdiv, SFdiv_core_binary. rewrite Hd1.
  change (Zdigits2 (Zpos 8388608)) with 24.
  change (fexp prec emax (24 + e - (24 + 1))) with (fexp32 (24 + e - (24 + 1))).
  rewrite fexp32_eq.
  replace (Z.min (Z.max (24 + e - (24 + 1) - 24) (-149)) (e - 1)) with (e - 25) by lia.
  replace (e - 1 - (e - 25)) with 24 by lia.
  rewrite Z.shiftl_mul_pow2 by lia.
  assert (Hdiv : Z.div_eucl (Zpos m * 2 ^ 24) (Zpos 8388608) = (Zpos m * 2, 0)).
  { pose proof (Z.div_eucl_eq (Zpos m * 2 ^ 24) (Zpos 8388608) ltac:(lia)).
    unfold Z.div, Z.modulo in *.
    destruct (Z.div_eucl (Zpos m * 2 ^ 24) (Zpos 8388608)) as [q0 r0] eqn:Hq.
    assert (Hr := Z.mod_pos_bound (Zpos m * 2 ^ 24) (Zpos 8388608) ltac:(lia)).
    assert (Hmod : (Zpos m * 2 ^ 24) mod (Zpos 8388608) = 0).
    { change (2 ^ 24) with (2 * Zpos 8388608). rewrite Z.mul_assoc. apply Z.mod_mul. lia. }
    unfold Z.modulo in Hr, Hmod. rewrite Hq in Hr, Hmod. subst r0.
    f_equal. change (2 ^ 24) with (2 * 8388608) in H. lia. }
  rewrite Hdiv. change (new_location (Zpos 8388608) 0) with loc_Exact.
  replace (Zpos m * 2) with (Zpos (m~0)) by lia.
  simpl xorb.
  destruct (round_aux_approx (m~0) (e - 25)) as (Q & E & HQ & HE & Er & _ & Hx & _).
  - change (Zpos (digits2_pos m~0)) with (Zdigits2 (Zpos m~0)).
    rewrite (digits_unique (Zpos m~0) 25) by lia. rewrite fexp32_eq. lia.
  - change (Zpos (digits2_pos m~0)) with (Zdigits2 (Zpos m~0)) in *.
    rewrite (digits_unique (Zpos m~0) 25) in * by lia. rewrite fexp32_eq in *.
    replace (Z.max (25 + (e - 25) - 24) (-149)) with (e - 24) in * by lia.
    replace (e - 24 - (e - 25)) with 1 in Hx by lia.
    destruct Hx as [HQ1 HE1]. { replace (Zpos m~0) with (Zpos m * 2) by lia. rewrite Z.mod_mul; lia. }
    rewrite Er, HQ1, HE1. replace (Zpos m~0 / 2 ^ 1) with (Zpos m) by (replace (Zpos m~0) with (Zpos m * 2) by lia; rewrite Z.pow_1_r, Z.div_mul; lia).
    unfold mk_round. replace (e - 24 <=? emax - prec) with true by (symmetry; apply Z.leb_le; unfold emax, prec; lia). reflexivity.
Qed.

(** The noise value: zero, or the exact float [k * 2^-24] for the low 24 bits [k]. *)
Lemma pseudo_noise01_exact q r :
  let k := Z.land (noise_hash q r) 16777215 in
  (k = 0 /\ pseudo_noise01 q r = S754_zero false) \/
  (exists m e, pseudo_noise01 q r = S754_finite false m e /\ Zpos m = k * 2 ^ (- 24 - e) /\
               -47 <= e <= -24 /\ 2 ^ 23 <= Zpos m < 2 ^ 24).
Proof.
  intros k. unfold pseudo_noise01. fold k.
  assert (Hk : 0 <= k < 2 ^ 24).
  { unfold k. change 16777215 with (Z.ones 24). rewrite Z.land_ones by lia.
    apply Z.mod_pos_bound. lia. }
  rewrite of_Z_2_24.
  destruct k as [|p|p] eqn:Ek; [left; split; reflexivity| |lia].
  right. destruct (of_Z_small p ltac:(lia)) as (m & e & Ho & Hm & He & Hb).
  rewrite Ho, fdiv_2_24 by assumption.
  exists m, (e - 24). split; [reflexivity|]. split; [|split; lia].
  rewrite Hm. f_equal. f_equal. lia.
Qed.


Lemma canon_pos_fin x : canon x -> pos_fin x.
Proof. intros (m & e & -> & _). exists m, e. reflexivity. Qed.

Lemma mk_round_fin Q E m E' : mk_round Q E = S754_finite false m E' -> Q = Zpos m.
Proof.
  unfold mk_round. destruct Q; try discriminate.
  destruct (E <=? _); congruence.
Qed.

Lemma round_aux_canon p e m E :
  24 <= Zpos (digits2_pos p) -> -149 <= Zpos (digits2_pos p) + e - 24 ->
  binary_round_aux prec emax false (Zpos p) e loc_Exact = S754_finite false m E ->
  2 ^ 23 <= Zpos m < 2 ^ 24.
Proof.
  intros Hd Hn Hr. pose proof (digits_bounds p) as [D1 D2].
  destruct (Z_le_gt_dec (fexp32 (Zpos (digits2_pos p) + e)) e) as [Hex|Happ].
  - rewrite round_aux_exact in Hr by exact Hex. apply mk_round_fin in Hr.
    rewrite fexp32_eq in Hex.
    assert (Zpos (digits2_pos p) = 24) by lia.
    rewrite H in D1, D2. rewrite <- Hr. simpl in D1. lia.
  - destruct (round_aux_approx p e ltac:(lia)) as (Q & E0 & HQ & _ & Er & _ & _ & Hc).
    rewrite Er in Hr. apply mk_round_fin in Hr. subst Q. apply Hc. exact Hn.
Qed.

Lemma shl_align_gt mx ex e0 : ex < e0 -> shl_align mx ex e0 = (mx, ex).
Proof. intros H. unfold shl_align. destruct (e0 - ex) eqn:E; lia || reflexivity. Qed.

Lemma digits_shift mx s :
  0 <= s -> Zdigits2 (Zpos mx * 2 ^ s) = Zpos (digits2_pos mx) + s.
Proof.
  intros Hs. pose proof (digits_bounds mx) as [D1 D2].
  set (d := Zpos (digits2_pos mx)) in *.
  assert (0 < 2 ^ s) by (apply Z.pow_pos_nonneg; lia).
  apply digits_unique; [|unfold d; lia].
  replace (d + s - 1) with ((d - 1) + s) by lia.
  rewrite !Z.pow_add_r by (unfold d; lia).
  split; [apply Z.mul_le_mono_nonneg_r|apply Z.mul_lt_mono_pos_r]; lia.
Qed.

Lemma binary_round_canon mx ex m E :
  -149 <= Zpos (digits2_pos mx) + ex - 24 ->
  binary_round prec emax false mx ex = S754_finite false m E ->
  2 ^ 23 <= Zpos m < 2 ^ 24.
Proof.
  intros Hn. unfold binary_round.
  change (fexp prec emax (Zpos (digits2_pos mx) + ex)) with (fexp32 (Zpos (digits2_pos mx) + ex)).
  rewrite fexp32_eq. set (d := Zpos (digits2_pos mx)) in *.
  replace (Z.max (d + ex - 24) (-149)) with (d + ex - 24) by lia.
  destruct (Z_le_gt_dec (d + ex - 24) ex) as [Hle|Hgt].
  - destruct (shl_align_Z mx ex (d + ex - 24) Hle) as [Hm He].
    destruct (shl_align mx ex (d + ex - 24)) as [mz ez]. cbn [fst snd] in Hm, He. subst ez.
    intros Hr. apply (round_aux_canon mz (d + ex - 24) m E); [| |exact Hr].
    + change (Zpos (digits2_pos mz)) with (Zdigits2 (Zpos mz)). rewrite Hm, digits_shift by lia. fold d. lia.
    + change (Zpos (digits2_pos mz)) with (Zdigits2 (Zpos mz)). rewrite Hm, digits_shift by lia. fold d. lia.
  - rewrite shl_align_gt by lia. intros Hr. apply (round_aux_canon mx ex m E); [fold d; lia|fold d; lia|exact Hr].
Qed.

Lemma bpow_lt_inv a b : (powerRZ 2 a < powerRZ 2 b)%R -> a < b.
Proof.
  intros H. destruct (Z_lt_le_dec a b) as [|Hba]; [assumption|].
  apply bpow_le in Hba. lra.
Qed.

Lemma normal_of_value p e :
  (powerRZ 2 (-100) <= IZR (Zpos p) * powerRZ 2 e)%R -> -100 < Zpos (digits2_pos p) + e.
Proof.
  intros H. pose proof (digits_bounds p) as [_ D2].
  apply IZR_lt in D2. rewrite IZR_pow2 in D2 by lia.
  apply bpow_lt_inv. rewrite bpow_plus. pose proof (bpow_pos e).
  apply Rle_lt_trans with (IZR (Zpos p) * powerRZ 2 e)%R; [exact H|].
  apply Rmult_lt_compat_r; assumption.
Qed.

Lemma fmul_rc x y :
  canon x -> canon y ->
  (powerRZ 2 (-100) <= B2R x * B2R y < powerRZ 2 104)%R ->
  rnd_canon (fmul x y) (B2R x * B2R y).
Proof.
  intros Cx Cy Hu.
  destruct (fmul_ok x y (canon_pos_fin x Cx) (canon_pos_fin y Cy)) as [(m & E & Hr) Herr].
  { pose proof (bpow_le (-140) (-100) ltac:(lia)). lra. }
  split; [|exact Herr]. exists m, E. split; [exact Hr|].
  destruct Cx as (mx & ex & -> & Bx). destruct Cy as (my & ey & -> & By).
  rewrite !B2R_pos in Hu.
  replace (IZR (Zpos mx) * powerRZ 2 ex * (IZR (Zpos my) * powerRZ 2 ey))%R
    with (IZR (Zpos (mx * my)) * powerRZ 2 (ex + ey))%R in Hu
    by (rewrite Pos2Z.inj_mul, mult_IZR, bpow_plus; ring).
  pose proof (normal_of_value _ _ (proj1 Hu)) as Hn.
  pose proof (digits_bounds (mx * my)) as [_ D2].
  assert (Hp : 2 ^ 46 <= Zpos (mx * my)) by (rewrite Pos2Z.inj_mul; change (2 ^ 46) with (2 ^ 23 * 2 ^ 23); nia).
  assert (Hd : 47 <= Zpos (digits2_pos (mx * my))).
  { destruct (Z_le_gt_dec 47 (Zpos (digits2_pos (mx * my)))) as [|Hg]; [assumption|].
    assert (2 ^ Zpos (digits2_pos (mx * my)) <= 2 ^ 46) by (apply Z.pow_le_mono_r; lia). lia. }
  apply (round_aux_canon (mx * my) (ex + ey) m E); [lia|lia|exact Hr].
Qed.

Lemma binary_round_rc c ez :
  (powerRZ 2 (-100) <= IZR (Zpos c) * powerRZ 2 ez < powerRZ 2 104)%R ->
  rnd_canon (binary_round prec emax false c ez) (IZR (Zpos c) * powerRZ 2 ez).
Proof.
  intros Hu.
  destruct (binary_round_ok c ez) as [(m & E & Hr) Herr].
  { pose proof (bpow_le (-140) (-100) ltac:(lia)). lra. }
  split; [|exact Herr]. exists m, E. split; [exact Hr|].
  pose proof (normal_of_value _ _ (proj1 Hu)) as Hn.
  apply (binary_round_canon c ez m E); [lia|exact Hr].
Qed.

Lemma fadd_rc x y :
  canon x -> canon y ->
  (powerRZ 2 (-100) <= B2R x + B2R y < powerRZ 2 104)%R ->
  rnd_canon (fadd x y) (B2R x + B2R y).
Proof.
  intros Cx Cy H.
  destruct (fadd_shape x y (canon_pos_fin x Cx) (canon_pos_fin y Cy)) as (c & ez & -> & Hv).
  rewrite <- Hv in *. apply binary_round_rc. exact H.
Qed.

Lemma fsub_rc x y :
  canon x -> canon y ->
  (powerRZ 2 (-100) <= B2R x - B2R y < powerRZ 2 104)%R ->
  rnd_canon (fsub x y) (B2R x - B2R y).
Proof.
  intros Cx Cy H. pose proof (bpow_pos (-100)).
  destruct (fsub_shape x y (canon_pos_fin x Cx) (canon_pos_fin y Cy) ltac:(lra)) as (c & ez & -> & Hv).
  rewrite <- Hv in *. apply binary_round_rc. exact H.
Qed.

Lemma canon_bounds m e :
  2 ^ 23 <= Zpos m < 2 ^ 24 ->
  (powerRZ 2 (23 + e) <= B2R (S754_finite false m e) < powerRZ 2 (24 + e))%R.
Proof.
  intros [H1 H2]. rewrite B2R_pos, !bpow_plus, <- (IZR_pow2 23), <- (IZR_pow2 24) by lia.
  pose proof (bpow_pos e). apply IZR_le in H1. apply IZR_lt in H2.
  split; [apply Rmult_le_compat_r|apply Rmult_lt_compat_r]; lra.
Qed.

(** On canonical floats the comparison of [SFltb] is the comparison of the values. *)
Lemma flt_canon x y : canon x -> canon y -> flt x y = true <-> (B2R x < B2R y)%R.
Proof.
  intros (m1 & e1 & -> & B1) (m2 & e2 & -> & B2).
  pose proof (canon_bounds m1 e1 B1) as [L1 U1]. pose proof (canon_bounds m2 e2 B2) as [L2 U2].
  unfold flt, SFltb, SFcompare.
  destruct (Z.compare_spec e1 e2) as [E|E|E].
  - subst e2. change (Pos.compare_cont Eq m1 m2) with (Pos.compare m1 m2).
    rewrite !B2R_pos. pose proof (bpow_pos e1).
    destruct (Pos.compare_spec m1 m2) as [Em|Em|Em].
    + subst. split; [discriminate|lra].
    + split; [intros _|reflexivity]. apply Rmult_lt_compat_r; [lra|]. apply IZR_lt. lia.
    + split; [discriminate|]. intros Hc. exfalso.
      assert (IZR (Zpos m2) < IZR (Zpos m1))%R by (apply IZR_lt; lia). nra.
  - split; [intros _|reflexivity].
    pose proof (bpow_le (24 + e1) (23 + e2) ltac:(lia)). lra.
  - split; [discriminate|]. intros Hc. exfalso.
    pose proof (bpow_le (24 + e2) (23 + e1) ltac:(lia)). lra.
Qed.

(** ** The Flowers formulas *)

Lemma B2R_neg m k : 0 <= k -> B2R (S754_finite false m (- k)) = (IZR (Zpos m) / IZR (2 ^ k))%R.
Proof.
  intros Hk. rewrite B2R_pos, IZR_pow2 by exact Hk. unfold Rdiv.
  rewrite <- powerRZ_neg' . reflexivity.
Qed.

Lemma c068_eq : flit 68 2 = S754_finite false 11408507 (-24).
Proof. vm_compute. reflexivity. Qed.
Lemma c60_eq : of_Z 60 = S754_finite false 15728640 (-18).
Proof. vm_compute. reflexivity. Qed.
Lemma c240_eq : of_Z 240 = S754_finite false 15728640 (-16).
Proof. vm_compute. reflexivity. Qed.
Lemma c04_eq : flit 4 1 = S754_finite false 13421773 (-25).
Proof. vm_compute. reflexivity. Qed.
Lemma c055_eq : flit 55 2 = S754_finite false 9227469 (-24).
Proof. vm_compute. reflexivity. Qed.
Lemma c035_eq : flit 35 2 = S754_finite false 11744051 (-25).
Proof. vm_compute. reflexivity. Qed.
Lemma c095_eq : flit 95 2 = S754_finite false 15938355 (-24).
Proof. vm_compute. reflexivity. Qed.
Lemma c45_eq : flit 45 1 = S754_finite false 9437184 (-21).
Proof. vm_compute. reflexivity. Qed.
Lemma c2_eq : c2 = S754_finite false 8388608 (-22).
Proof. vm_compute. reflexivity. Qed.

Lemma Rerr_num u : (0 <= u)%R -> (Rerr u <= u / 2000000 + / 1000000000000)%R.
Proof.
  intros Hu. pose proof (Rerr_le u). rewrite Rabs_pos_eq in H by exact Hu.
  assert (E23 : powerRZ 2 (-23) = (/ 8388608)%R) by (simpl; lra).
  assert (E50 : powerRZ 2 (-50) = (/ 1125899906842624)%R) by (simpl; lra).
  pose proof (bpow_le (-149) (-50) ltac:(lia)). rewrite E50 in H0. rewrite E23 in H. lra.
Qed.

Lemma bpow_m100 : (powerRZ 2 (-100) <= / 1000000000000)%R.
Proof.
  assert (E40 : powerRZ 2 (-40) = (/ 1099511627776)%R) by (simpl; lra).
  pose proof (bpow_le (-100) (-40) ltac:(lia)). lra.
Qed.

Lemma bpow_104 : (1000000 <= powerRZ 2 104)%R.
Proof.
  assert (E20 : powerRZ 2 20 = 1048576%R) by (simpl; lra).
  pose proof (bpow_le 20 104 ltac:(lia)). lra.
Qed.

Lemma rc_bounds r u :
  rnd_canon r u -> (0 <= u)%R ->
  (u - u / 2000000 - / 1000000000000 <= B2R r <= u + u / 2000000 + / 1000000000000)%R.
Proof.
  intros [_ H] Hu. pose proof (Rerr_num u Hu).
  unfold Rabs in H. destruct (Rcase_abs (B2R r - u)); lra.
Qed.

Lemma canon_fin m e : 2 ^ 23 <= Zpos m < 2 ^ 24 -> canon (S754_finite false m e).
Proof. intros H. exists m, e. auto. Qed.

Ltac canon_const := apply canon_fin; simpl; lia.

Section FlowersChain.

Variables n k068 k60 k240 k04 k055 k035 k095 k45 k2 : float.
Hypothesis Cn : canon n.
Hypothesis Vn : (11408508 / 16777216 <= B2R n <= 16777215 / 16777216)%R.
Hypothesis V068 : B2R k068 = (11408507 / 16777216)%R.
Hypothesis V60 : B2R k60 = 60%R.
Hypothesis V240 : B2R k240 = 240%R.
Hypothesis V04 : B2R k04 = (13421773 / 33554432)%R.
Hypothesis V055 : B2R k055 = (9227469 / 16777216)%R.
Hypothesis V035 : B2R k035 = (11744051 / 33554432)%R.
Hypothesis V095 : B2R k095 = (15938355 / 16777216)%R.
Hypothesis V45 : B2R k45 = (45 / 10)%R.
Hypothesis V2 : B2R k2 = 2%R.
Hypotheses (C068 : canon k068) (C60 : canon k60) (C240 : canon k240) (C04 : canon k04)
  (C055 : canon k055) (C035 : canon k035) (C095 : canon k095) (C45 : canon k45) (C2 : canon k2).

Lemma flowers_chain_gen :
  let cap := fadd k240 (fmul k60 n) in
  let v := fadd k055 (fmul k04 (fsub n k068)) in
  let stock := fmul cap (clampf v k035 k095) in
  let recharge := fadd k45 (fmul k2 (fsub n k068)) in
  canon cap /\ canon stock /\ canon recharge /\
  clampf v k035 k095 = v /\
  (68 / 100 < B2R n < 1)%R /\
  (0 < B2R stock < B2R cap)%R /\
  (Rabs (B2R cap - (240 + 60 * B2R n)) <= / 4096)%R /\
  (Rabs (B2R stock - B2R cap * (55 / 100 + 4 / 10 * (B2R n - 68 / 100))) <= / 1024)%R /\
  (Rabs (B2R recharge - (45 / 10 + 2 * (B2R n - 68 / 100))) <= / 65536)%R.
Proof.
  intros cap v stock recharge.
  pose proof bpow_m100 as P100. pose proof bpow_104 as P104.
  (* 60 * noise *)
  set (t1 := fmul k60 n) in cap.
  assert (R1 : rnd_canon t1 (B2R k60 * B2R n)) by (apply fmul_rc; auto; rewrite V60; lra).
  pose proof (rc_bounds _ _ R1 ltac:(rewrite V60; lra)) as B1. rewrite V60 in B1.
  (* capacity *)
  assert (Rc : rnd_canon cap (B2R k240 + B2R t1)) by (apply fadd_rc; auto; [apply R1|]; rewrite V240; lra).
  pose proof (rc_bounds _ _ Rc ltac:(rewrite V240; lra)) as Bc. rewrite V240 in Bc.
  assert (Kc : (280 <= B2R cap <= 301)%R) by lra.
  (* excess *)
  set (d := fsub n k068) in v, recharge.
  assert (Rd : rnd_canon d (B2R n - B2R k068)) by (apply fsub_rc; auto; rewrite V068; lra).
  pose proof (rc_bounds _ _ Rd ltac:(rewrite V068; lra)) as Bd. rewrite V068 in Bd.
  assert (Kd : (/ 20000000 <= B2R d <= 33 / 100)%R) by lra.
  (* 0.4 * excess *)
  set (t2 := fmul k04 d) in v.
  assert (R2 : rnd_canon t2 (B2R k04 * B2R d)) by (apply fmul_rc; auto; [apply Rd|]; rewrite V04; lra).
  pose proof (rc_bounds _ _ R2 ltac:(rewrite V04; lra)) as B2. rewrite V04 in B2.
  (* v *)
  assert (Rv : rnd_canon v (B2R k055 + B2R t2)) by (apply fadd_rc; auto; [apply R2|]; rewrite V055; lra).
  pose proof (rc_bounds _ _ Rv ltac:(rewrite V055; lra)) as Bv. rewrite V055 in Bv.
  assert (Kv : (54 / 100 <= B2R v <= 7 / 10)%R) by lra.
  (* the clamp keeps v *)
  assert (Clamp : clampf v k035 k095 = v).
  { unfold clampf.
    destruct (flt v k035) eqn:L1.
    - apply flt_canon in L1; [|apply Rv|exact C035]. rewrite V035 in L1. lra.
    - change (fgt v k095) with (flt k095 v). destruct (flt k095 v) eqn:L2; [|reflexivity].
      apply flt_canon in L2; [|exact C095|apply Rv]. rewrite V095 in L2. lra. }
  (* stock *)
  assert (Kcv : (280 * (54 / 100) <= B2R cap * B2R v <= B2R cap * (7 / 10))%R).
  { split; [apply Rmult_le_compat; lra|apply Rmult_le_compat_l; lra]. }
  assert (Rs : rnd_canon stock (B2R cap * B2R v)).
  { unfold stock. rewrite Clamp. apply fmul_rc; [apply Rc|apply Rv|lra]. }
  pose proof (rc_bounds _ _ Rs ltac:(lra)) as Bs.
  (* recharge *)
  set (t3 := fmul k2 d) in recharge.
  assert (R3 : rnd_canon t3 (B2R k2 * B2R d)) by (apply fmul_rc; auto; [apply Rd|]; rewrite V2; lra).
  pose proof (rc_bounds _ _ R3 ltac:(rewrite V2; lra)) as B3. rewrite V2 in B3.
  assert (Rr : rnd_canon recharge (B2R k45 + B2R t3)) by (apply fadd_rc; auto; [apply R3|]; rewrite V45; lra).
  pose proof (rc_bounds _ _ Rr ltac:(rewrite V45; lra)) as Br. rewrite V45 in Br.
  split; [apply Rc|]. split; [apply Rs|]. split; [apply Rr|]. split; [exact Clamp|].
  split; [lra|]. split; [lra|].
  split; [apply Rabs_le; lra|]. split; [|apply Rabs_le; lra].
  set (X := (55 / 100 + 4 / 10 * (B2R n - 68 / 100))%R).
  assert (HX : (Rabs (B2R v - X) <= / 1000000)%R) by (apply Rabs_le; unfold X; lra).
  assert (HY : (Rabs (B2R cap * (B2R v - X)) <= 301 / 1000000)%R).
  { rewrite Rabs_mult, (Rabs_pos_eq (B2R cap)) by lra.
    replace (301 / 1000000)%R with (301 * / 1000000)%R by lra.
    apply Rmult_le_compat; [lra|apply Rabs_pos|lra|exact HX]. }
  assert (HZ : (Rabs (B2R stock - B2R cap * B2R v) <= 2 / 10000)%R) by (apply Rabs_le; lra).
  replace (B2R stock - B2R cap * X)%R with ((B2R stock - B2R cap * B2R v) + B2R cap * (B2R v - X))%R by ring.
  eapply Rle_trans; [apply Rabs_triang|]. lra.
Qed.

End FlowersChain.

Lemma flowers_chain m :
  11408507 < Zpos m < 2 ^ 24 ->
  let n := S754_finite false m (-24) in
  let cap := fadd (of_Z 240) (fmul (of_Z 60) n) in
  let v := fadd (flit 55 2) (fmul (flit 4 1) (fsub n (flit 68 2))) in
  let stock := fmul cap (clampf v (flit 35 2) (flit 95 2)) in
  let recharge := fadd (flit 45 1) (fmul c2 (fsub n (flit 68 2))) in
  canon cap /\ canon stock /\ canon recharge /\
  clampf v (flit 35 2) (flit 95 2) = v /\
  (68 / 100 < B2R n < 1)%R /\
  (0 < B2R stock < B2R cap)%R /\
  (Rabs (B2R cap - (240 + 60 * B2R n)) <= / 4096)%R /\
  (Rabs (B2R stock - B2R cap * (55 / 100 + 4 / 10 * (B2R n - 68 / 100))) <= / 1024)%R /\
  (Rabs (B2R recharge - (45 / 10 + 2 * (B2R n - 68 / 100))) <= / 65536)%R.
Proof.
  intros Hm n.
  assert (Vn : (11408508 / 16777216 <= B2R n <= 16777215 / 16777216)%R).
  { unfold n. change (-24) with (- (24)). rewrite B2R_neg by lia. change (2 ^ 24) with 16777216.
    assert (IZR 11408508 <= IZR (Zpos m) <= IZR 16777215)%R by (split; apply IZR_le; lia).
    split; unfold Rdiv; apply Rmult_le_compat_r; lra. }
  apply (flowers_chain_gen n (flit 68 2) (of_Z 60) (of_Z 240) (flit 4 1) (flit 55 2)
           (flit 35 2) (flit 95 2) (flit 45 1) c2).
  - apply canon_fin; lia.
  - exact Vn.
  - rewrite c068_eq; change (-24) with (- (24)); rewrite B2R_neg by lia; reflexivity.
  - rewrite c60_eq; change (-18) with (- (18)); rewrite B2R_neg by lia; simpl; lra.
  - rewrite c240_eq; change (-16) with (- (16)); rewrite B2R_neg by lia; simpl; lra.
  - rewrite c04_eq; change (-25) with (- (25)); rewrite B2R_neg by lia; reflexivity.
  - rewrite c055_eq; change (-24) with (- (24)); rewrite B2R_neg by lia; reflexivity.
  - rewrite c035_eq; change (-25) with (- (25)); rewrite B2R_neg by lia; reflexivity.
  - rewrite c095_eq; change (-24) with (- (24)); rewrite B2R_neg by lia; reflexivity.
  - rewrite c45_eq; change (-21) with (- (21)); rewrite B2R_neg by lia; simpl; lra.
  - rewrite c2_eq; change (-22) with (- (22)); rewrite B2R_neg by lia; simpl; lra.
  - rewrite c068_eq; canon_const.
  - rewrite c60_eq; canon_const.
  - rewrite c240_eq; canon_const.
  - rewrite c04_eq; canon_const.
  - rewrite c055_eq; canon_const.
  - rewrite c035_eq; canon_const.
  - rewrite c095_eq; canon_const.
  - rewrite c45_eq; canon_const.
  - rewrite c2_eq; canon_const.
Qed.

(** * Generation and lookup *)

Lemma to_int16_id z : -2 ^ 15 <= z < 2 ^ 15 -> to_int16 z = z.
Proof. intros H. unfold to_int16. rewrite Z.mod_small by lia. lia. Qed.


Lemma to_uint16_id z : 0 <= z < 2 ^ 16 -> to_uint16 z = z.
Proof. intros H. unfold to_uint16. apply Z.mod_small. lia. Qed.

Lemma to_size_id z : 0 <= z < 2 ^ 64 -> to_size z = z.
Proof. intros H. unfold to_size. apply Z.mod_small. lia. Qed.

Lemma zrange_length a n : length (zrange a n) = n.
Proof. revert a. induction n; intros a; simpl; [reflexivity|]. rewrite IHn. reflexivity. Qed.

Lemma zrange_nth a n i : (i < n)%nat -> nth_error (zrange a n) i = Some (a + Z.of_nat i).
Proof.
  revert a i. induction n; intros a i Hi; [lia|].
  destruct i as [|i]; simpl; [f_equal; lia|].
  rewrite IHn by lia. f_equal. lia.
Qed.

Lemma In_zrange a n x : In x (zrange a n) <-> a <= x < a + Z.of_nat n.
Proof.
  revert a. induction n; intros a; simpl; [lia|].
  rewrite IHn. lia.
Qed.

(** Row-major indexing of a [flat_map] whose blocks all have length [k]. *)
Lemma nth_error_flat_map {A B} (f : A -> list B) k l i j :
  (forall x, In x l -> length (f x) = k) -> (j < k)%nat ->
  nth_error (flat_map f l) (i * k + j) =
  match nth_error l i with Some x => nth_error (f x) j | None => None end.
Proof.
  revert i. induction l as [|x l IH]; intros i Hk Hj.
  - simpl flat_map. rewrite !nth_error_nil. reflexivity.
  - simpl flat_map. destruct i as [|i].
    + simpl. rewrite nth_error_app1 by (rewrite Hk by (left; reflexivity); lia). reflexivity.
    + rewrite nth_error_app2 by (rewrite Hk by (left; reflexivity); nia).
      rewrite Hk by (left; reflexivity).
      replace (S i * k + j - k)%nat with (i * k + j)%nat by nia.
      apply IH; [intros y Hy; apply Hk; right; exact Hy | exact Hj].
Qed.

Lemma generate_tiles_length p w qlo qn rlo rn :
  length (generate_tiles p w qlo qn rlo rn) = (rn * qn)%nat.
Proof.
  unfold generate_tiles. generalize rlo. induction rn as [|rn IH]; intros a;
    cbn [zrange flat_map]; [reflexivity|].
  rewrite length_app, length_map, zrange_length, IH. reflexivity.
Qed.

Lemma generate_tiles_nth p w qlo qn rlo rn i j :
  (i < rn)%nat -> (j < qn)%nat ->
  nth_error (generate_tiles p w qlo qn rlo rn) (i * qn + j) =
  Some (assign_tile_defaults (Some p) w (fresh_tile w (qlo + Z.of_nat j) (rlo + Z.of_nat i))).
Proof.
  intros Hi Hj. unfold generate_tiles.
  rewrite (nth_error_flat_map _ qn);
    [| intros; rewrite length_map, zrange_length; reflexivity | exact Hj].
  rewrite zrange_nth by exact Hi. cbv beta.
  rewrite nth_error_map, zrange_nth by exact Hj. reflexivity.
Qed.

Lemma generate_tiles_In p w qlo qn rlo rn t :
  In t (generate_tiles p w qlo qn rlo rn) ->
  exists q r, qlo <= q < qlo + Z.of_nat qn /\ rlo <= r < rlo + Z.of_nat rn /\
              t = assign_tile_defaults (Some p) w (fresh_tile w q r).
Proof.
  unfold generate_tiles. rewrite in_flat_map. intros (r & Hr & Ht).
  apply in_map_iff in Ht as (q & <- & Hq).
  apply In_zrange in Hr, Hq. exists q, r. auto.
Qed.

(** The generated tiles read only the cell size and the origin of the world. *)
Lemma generate_tiles_ext p w w' qlo qn rlo rn :
  cell_size w = cell_size w' -> origin_x w = origin_x w' -> origin_y w = origin_y w' ->
  generate_tiles p w qlo qn rlo rn = generate_tiles p w' qlo qn rlo rn.
Proof.
  intros H1 H2 H3.
  unfold generate_tiles, assign_tile_defaults, classify_by_noise, fresh_tile, tile_center,
    entrance_axial_ok, entrance_radial_ok.
  rewrite H1, H2, H3. reflexivity.
Qed.

(** What [hex_world_create] leaves behind when it allocated tiles. *)
Lemma create_tiles world p alloc b w ts :
  hex_world_create world (Some p) alloc = (b, Some w) -> tiles w = Some ts ->
  ts = generate_tiles p w (p_q_min (hex p)) (Z.to_nat (p_q_max (hex p) - p_q_min (hex p) + 1))
                          (p_r_min (hex p)) (Z.to_nat (p_r_max (hex p) - p_r_min (hex p) + 1)).
Proof.
  unfold hex_world_create. destruct world; [|discriminate].
  destruct (negb (enabled (hex p))); [intros [= _ <-]; discriminate|].
  destruct (_ || _); [intros [= _ <-]; discriminate|].
  destruct (_ =? 0); [intros [= _ <-]; discriminate|].
  destruct (negb alloc); [intros [= _ <-]; discriminate|].
  intros [= _ <-]. simpl. intros [= <-]. apply generate_tiles_ext; reflexivity.
Qed.

Ltac destruct_ifs :=
  repeat match goal with
         | |- context [if ?b then _ else _] => destruct b
         end.

(** [assign_tile_defaults] keeps the coordinates and the centre of a tile. *)
Lemma assign_keep params w t0 :
  let t := assign_tile_defaults params w t0 in
  tq t = tq t0 /\ tr t = tr t0 /\ center_x t = center_x t0 /\ center_y t = center_y t0.
Proof.
  unfold assign_tile_defaults, classify_by_noise. cbv zeta.
  destruct params; destruct_ifs; repeat split.
Qed.

Lemma fresh_tile_q w q r : tq (fresh_tile w q r) = to_int16 q.
Proof. unfold fresh_tile. destruct (tile_center w q r). reflexivity. Qed.

Lemma fresh_tile_r w q r : tr (fresh_tile w q r) = to_int16 r.
Proof. unfold fresh_tile. destruct (tile_center w q r). reflexivity. Qed.

Lemma fresh_tile_center w q r :
  (center_x (fresh_tile w q r), center_y (fresh_tile w q r)) = tile_center w q r.
Proof. unfold fresh_tile. destruct (tile_center w q r). reflexivity. Qed.

(** The shape of the world built from a valid, enabled configuration. *)
Lemma create_ok world p alloc w :
  enabled (hex p) = true -> hex_params_validate (hex p) = true ->
  hex_world_create world (Some p) alloc = (true, Some w) ->
  let hp := hex p in
  let qs := p_q_max hp - p_q_min hp + 1 in
  let rs := p_r_max hp - p_r_min hp + 1 in
  q_min w = p_q_min hp /\ q_max w = p_q_max hp /\ r_min w = p_r_min hp /\ r_max w = p_r_max hp /\
  width w = qs /\ height w = rs /\ count w = qs * rs /\
  cell_size w = p_cell_size hp /\ origin_x w = p_origin_x hp /\ origin_y w = p_origin_y hp /\
  -2 ^ 15 <= p_q_min hp /\ p_q_max hp < 2 ^ 15 /\ -2 ^ 15 <= p_r_min hp /\ p_r_max hp < 2 ^ 15 /\
  0 < qs < 2 ^ 16 /\ 0 < rs < 2 ^ 16 /\
  tiles w = Some (generate_tiles p w (p_q_min hp) (Z.to_nat qs) (p_r_min hp) (Z.to_nat rs)).
Proof.
  intros Hen Hv H. cbv zeta.
  unfold hex_params_validate in Hv. rewrite Hen in Hv. cbn [negb orb] in Hv.
  rewrite !andb_true_iff, !Z.leb_le, !Z.ltb_lt in Hv.
  destruct Hv as [[[[[[[[[[_ H1] H2] H3] H4] H5] H6] H7] H8] H9] H10].
  unfold hex_world_create in H. destruct world as [w0|]; [|discriminate].
  rewrite Hen in H. cbv zeta in H. cbn [negb] in H.
  rewrite (proj2 (Z.leb_gt _ 0) H7), (proj2 (Z.leb_gt _ 0) H8) in H. cbn [orb] in H.
  assert (Hc : 0 < (p_q_max (hex p) - p_q_min (hex p) + 1) * (p_r_max (hex p) - p_r_min (hex p) + 1)
                 <= 65535 * 65535) by nia.
  rewrite to_size_id in H by (change (2 ^ 64) with 18446744073709551616; lia).
  rewrite (proj2 (Z.eqb_neq ((p_q_max (hex p) - p_q_min (hex p) + 1) *
                             (p_r_max (hex p) - p_r_min (hex p) + 1)) 0) ltac:(lia)) in H.
  destruct alloc; [|discriminate]. cbn [negb] in H. injection H as <-.
  cbn [q_min q_max r_min r_max width height count cell_size origin_x origin_y tiles].
  rewrite !to_int16_id, !to_uint16_id by lia.
  repeat split; try reflexivity; lia.
Qed.

(** Index arithmetic of a world whose header fits the [int16_t] and [uint16_t] fields. *)
Lemma index_in_box w ts q r :
  tiles w = Some ts -> width w = q_max w - q_min w + 1 ->
  0 < width w < 2 ^ 16 -> 0 <= r_max w - r_min w < 2 ^ 16 ->
  q_min w <= q <= q_max w -> r_min w <= r <= r_max w ->
  hex_world_index (Some w) q r = (r - r_min w) * width w + (q - q_min w).
Proof.
  intros Ht Hw Hw1 Hr Hq Hr'. unfold hex_world_index, hex_world_in_bounds. rewrite Ht.
  rewrite (proj2 (Z.leb_le _ _) (proj1 Hq)), (proj2 (Z.leb_le _ _) (proj2 Hq)),
          (proj2 (Z.leb_le _ _) (proj1 Hr')), (proj2 (Z.leb_le _ _) (proj2 Hr')).
  cbn [andb]. rewrite !(to_size_id (_ - _)) by lia. apply to_size_id. nia.
Qed.

Lemma index_out_of_box w q r :
  ~ (q_min w <= q <= q_max w /\ r_min w <= r <= r_max w) ->
  hex_world_index (Some w) q r = SIZE_MAX /\ hex_world_tile (Some w) q r = None.
Proof.
  intros Hn. assert (Hb : hex_world_in_bounds (Some w) q r = false).
  { unfold hex_world_in_bounds. destruct (tiles w); [|reflexivity].
    destruct (q_min w <=? q) eqn:E1, (q <=? q_max w) eqn:E2, (r_min w <=? r) eqn:E3,
      (r <=? r_max w) eqn:E4; try reflexivity.
    exfalso. apply Hn. rewrite !Z.leb_le in *. lia. }
  unfold hex_world_tile, hex_world_index. rewrite Hb. rewrite Z.eqb_refl. split; reflexivity.
Qed.

(** The colony tests read only the centre of a tile. *)
Lemma colony_tests_centers h w t t' :
  center_x t = center_x t' -> center_y t = center_y t' ->
  in_colony_rect h t = in_colony_rect h t' /\
  entrance_axial_ok h w t = entrance_axial_ok h w t' /\
  entrance_radial_ok h w t = entrance_radial_ok h w t'.
Proof.
  intros Hx Hy. unfold in_colony_rect, entrance_axial_ok, entrance_radial_ok, entrance_dx, entrance_dy.
  rewrite Hx, Hy. repeat split.
Qed.

Lemma assign_colony p w t0 :
  hive_enabled (hive p) = true ->
  let t := assign_tile_defaults (Some p) w t0 in
  (in_colony_rect (hive p) t = true -> terrain t = HEX_TERRAIN_HIVE) /\
  (in_colony_rect (hive p) t = false -> entrance_axial_ok (hive p) w t = true ->
   entrance_radial_ok (hive p) w t = true -> terrain t = HEX_TERRAIN_ENTRANCE).
Proof.
  intros Hh. cbv zeta.
  destruct (assign_keep (Some p) w t0) as (_ & _ & Hx & Hy).
  destruct (colony_tests_centers (hive p) w _ _ Hx Hy) as (-> & -> & ->).
  unfold assign_tile_defaults. cbv zeta. rewrite Hh.
  match goal with
  | |- context [in_colony_rect _ ?R] =>
      destruct (colony_tests_centers (hive p) w R t0 eq_refl eq_refl) as (<- & <- & <-)
  end.
  destruct (in_colony_rect _ _); [split; [reflexivity | discriminate]|].
  split; [discriminate|]. intros _ -> ->. reflexivity.
Qed.

(** The nectar fields written by [assign_tile_defaults], by branch. *)
Lemma assign_nectar p w t0 :
  let t := assign_tile_defaults (Some p) w t0 in
  let n := pseudo_noise01 (tq t0) (tr t0) in
  (terrain t <> HEX_TERRAIN_FLOWERS /\ terrain t <> HEX_TERRAIN_FOREST /\
   nectar_stock t = fzero /\ nectar_capacity t = fzero /\ nectar_recharge_rate t = fzero) \/
  (terrain t = HEX_TERRAIN_FOREST /\ nectar_capacity t = of_Z 30 /\
   nectar_stock t = fmul (of_Z 30) (flit 3 1) /\ nectar_recharge_rate t = flit 8 1) \/
  (terrain t = HEX_TERRAIN_FLOWERS /\ fgt n (flit 68 2) = true /\
   nectar_capacity t = fadd (of_Z 240) (fmul (of_Z 60) n) /\
   nectar_stock t = fmul (fadd (of_Z 240) (fmul (of_Z 60) n))
                         (clampf (fadd (flit 55 2) (fmul (flit 4 1) (fsub n (flit 68 2))))
                                 (flit 35 2) (flit 95 2)) /\
   nectar_recharge_rate t = fadd (flit 45 1) (fmul c2 (fsub n (flit 68 2)))).
Proof.
  unfold assign_tile_defaults, classify_by_noise. cbv zeta. cbn [tq tr].
  destruct (hive_enabled (hive p)); [destruct (in_colony_rect _ _); [|destruct (_ && _)]|].
  all: try (left; repeat split; discriminate).
  all: destruct (fgt _ _ && fgt (pseudo_noise01 (tq t0) (tr t0)) (flit 68 2)) eqn:E;
       [apply andb_prop in E; right; right; repeat split; tauto|].
  all: destruct (flt _ (flit 4 2)); [left; repeat split; discriminate|].
  all: destruct (flt _ (flit 8 2)); [left; repeat split; discriminate|].
  all: destruct (flt _ (flit 18 2)); [right; left; repeat split|left; repeat split; discriminate].
Qed.

(** A noise value above [0.68f] is a normal float of exponent [-24]. *)
Lemma noise_flowers q r :
  fgt (pseudo_noise01 q r) (flit 68 2) = true ->
  exists m, pseudo_noise01 q r = S754_finite false m (-24) /\ 11408507 < Zpos m < 2 ^ 24.
Proof.
  rewrite c068_eq. unfold fgt, SFltb, SFcompare.
  destruct (pseudo_noise01_exact q r) as [[_ ->] | (m & e & -> & _ & He & Hm)]; [discriminate|].
  destruct (Z.compare_spec (-24) e) as [E|E|E]; [|lia|discriminate].
  subst e. change (Pos.compare_cont Eq 11408507 m) with (Pos.compare 11408507 m).
  destruct (Pos.compare_spec 11408507 m) as [Em|Em|Em]; try discriminate.
  intros _. exists m. split; [reflexivity|]. lia.
Qed.

(** Every tile of a built world is a fresh tile passed through [assign_tile_defaults]. *)
Lemma generated_tile world p alloc b w ts t :
  hex_world_create world (Some p) alloc = (b, Some w) -> tiles w = Some ts -> In t ts ->
  exists q r, t = assign_tile_defaults (Some p) w (fresh_tile w q r).
Proof.
  intros Hc Ht Hin. rewrite (create_tiles world p alloc b w ts Hc Ht) in Hin.
  destruct (generate_tiles_In _ _ _ _ _ _ _ Hin) as (q & r & _ & _ & ->). eauto.
Qed.

Lemma canon_finite x : canon x -> is_finite x = true.
Proof. intros (m & e & -> & _). reflexivity. Qed.

Lemma canon_B2R_pos x : canon x -> (0 < B2R x)%R.
Proof. intros (m & e & -> & _). apply B2R_pos_gt. Qed.

Lemma canon_feq_zero x : canon x -> feq x c0 = false.
Proof. intros (m & e & -> & _). reflexivity. Qed.

(** The Flowers branch, in terms of the tile's noise. *)
Lemma flowers_tile p w t0 :
  let t := assign_tile_defaults (Some p) w t0 in
  terrain t = HEX_TERRAIN_FLOWERS ->
  let n := pseudo_noise01 (tq t0) (tr t0) in
  canon (nectar_capacity t) /\ canon (nectar_stock t) /\ canon (nectar_recharge_rate t) /\
  (68 / 100 < B2R n < 1)%R /\
  (0 < B2R (nectar_stock t) < B2R (nectar_capacity t))%R /\
  (Rabs (B2R (nectar_capacity t) - (240 + 60 * B2R n)) <= / 4096)%R /\
  (Rabs (B2R (nectar_stock t) - B2R (nectar_capacity t) * (55 / 100 + 4 / 10 * (B2R n - 68 / 100)))
     <= / 1024)%R /\
  (Rabs (B2R (nectar_recharge_rate t) - (45 / 10 + 2 * (B2R n - 68 / 100))) <= / 65536)%R.
Proof.
  cbv zeta. intros Hf.
  destruct (assign_nectar p w t0) as [(Hn & _) | [(Hn & _) | (_ & Hg & Ec & Es & Er)]];
    cbv zeta in *; [contradiction | congruence |].
  destruct (noise_flowers _ _ Hg) as (m & Em & Hm).
  rewrite Ec, Es, Er, Em.
  destruct (flowers_chain m Hm) as (Cc & Cs & Cr & Ecl & Hn & Hsc & Hc & Hs & Hr).
  cbv zeta in *. rewrite Ecl in *. auto 10.
Qed.

Lemma forest_stock_eq : fmul (of_Z 30) (flit 3 1) = S754_finite false 9437184 (-20).
Proof. vm_compute. reflexivity. Qed.

Lemma forest_cap_eq : of_Z 30 = S754_finite false 15728640 (-19).
Proof. vm_compute. reflexivity. Qed.

Lemma default_world_eq : hex_world_create (Some empty_world) (Some default_params) true
                         = (true, Some (built default_params)).
Proof. vm_compute. reflexivity. Qed.

Lemma built_tiles_eq p : tiles (built p) <> None -> tiles (built p) = Some (built_tiles p).
Proof. unfold built_tiles. destruct (tiles (built p)); [reflexivity | contradiction]. Qed.

Lemma lxor_bound n a b :
  0 <= n -> 0 <= a < 2 ^ n -> 0 <= b < 2 ^ n -> 0 <= Z.lxor a b < 2 ^ n.
Proof.
  intros Hn Ha Hb.
  assert (E : Z.lxor a b = Z.land (Z.lxor a b) (Z.ones n)).
  { apply Z.bits_inj'. intros i Hi.
    rewrite Z.land_spec, Z.lxor_spec, Z.testbit_ones_nonneg by lia.
    destruct (Z.lt_ge_cases i n) as [Hl|Hl].
    - rewrite (proj2 (Z.ltb_lt i n) Hl), andb_true_r. reflexivity.
    - rewrite <- (Z.mod_small a (2 ^ n)), <- (Z.mod_small b (2 ^ n)) by lia.
      rewrite !Z.mod_pow2_bits_high by lia. reflexivity. }
  rewrite E, Z.land_ones by exact Hn. apply Z.mod_pos_bound. lia.
Qed.

Lemma shiftr_bound n a k : 0 <= k -> 0 <= a < 2 ^ n -> 0 <= Z.shiftr a k < 2 ^ n.
Proof.
  intros Hk Ha. rewrite Z.shiftr_div_pow2 by exact Hk.
  assert (0 < 2 ^ k) by (apply Z.pow_pos_nonneg; lia).
  split; [apply Z.div_pos; lia|].
  apply Z.le_lt_trans with a; [|lia]. apply Z.div_le_upper_bound; nia.
Qed.

Lemma to_uint32_bound z : 0 <= to_uint32 z < 2 ^ 32.
Proof. apply Z.mod_pos_bound. lia. Qed.

Lemma to_uint32_wrap z a : to_uint32 (z + a * 2 ^ 32) = to_uint32 z.
Proof. apply Z.mod_add. lia. Qed.

Lemma bpow_m24 : powerRZ 2 (-24) = (/ 16777216)%R.
Proof.
  assert (H : (powerRZ 2 (-24) * 16777216 = 1)%R).
  { change 16777216%R with (IZR (2 ^ 24)). rewrite IZR_pow2, <- bpow_plus by lia. reflexivity. }
  apply (Rmult_eq_reg_r 16777216); [|lra]. rewrite H. field.
Qed.

Lemma SFcompare_swap x y : SFcompare y x = option_map CompOpp (SFcompare x y).
Proof.
  destruct x as [sx|sx| |sx mx ex], y as [sy|sy| |sy my ey]; try destruct sx; try destruct sy;
    try reflexivity; simpl.
  all: rewrite ?(Z.compare_antisym ex ey).
  all: try (destruct (ey ?= ex); reflexivity).
  all: destruct (ex ?= ey); simpl; try reflexivity.
  all: change (Pos.compare_cont Eq my mx) with (Pos.compare my mx);
       change (Pos.compare_cont Eq mx my) with (Pos.compare mx my);
       rewrite (Pos.compare_antisym mx my); destruct (Pos.compare my mx); reflexivity.
Qed.

Lemma feq_fgt x y : feq x y = true -> fgt x y = false /\ fgt y x = false.
Proof.
  unfold feq, fgt, SFeqb, SFltb. rewrite (SFcompare_swap x y).
  destruct (SFcompare x y) as [[]|]; simpl; try discriminate. split; reflexivity.
Qed.

Lemma fgt_asym x y : fgt x y = true -> fgt y x = false.
Proof.
  unfold fgt, SFltb. rewrite (SFcompare_swap y x).
  destruct (SFcompare y x) as [[]|]; simpl; congruence.
Qed.

Lemma roundtrip_box_ok_spec w q r :
  roundtrip_box_ok w = true -> q_min w <= q <= q_max w -> r_min w <= r <= r_max w ->
  roundtrip w q r = (q, r).
Proof.
  intros H Hq Hr. unfold roundtrip_box_ok in H.
  rewrite forallb_forall in H. specialize (H r (proj2 (In_zrange (r_min w) (Z.to_nat (r_max w - r_min w + 1)) r) ltac:(lia))).
  rewrite forallb_forall in H. specialize (H q (proj2 (In_zrange (q_min w) (Z.to_nat (q_max w - q_min w + 1)) q) ltac:(lia))).
  destruct (roundtrip w q r) as [q' r']. apply andb_prop in H as [E1 E2].
  apply Z.eqb_eq in E1, E2. subst. reflexivity.
Qed.

(** * Error analysis of the round trip *)

(** ** Rounding to nearest within a relative bound *)
























(** ** Division *)



(** ** [lrintf] and cube rounding near an integer *)





(** ** Bounds for the steps of the round trip *)














(** ** The round trip on a bounded lattice *)




(** * The claims *)




(** C2: in a world built from a valid, enabled configuration, [count] is
    [width * height]; every coordinate of the bounding box has the index
    [(r - r_min) * width + (q - q_min)] and a tile carrying the same [q] and
    [r]; distinct coordinates of the box have distinct indices; and outside
    the box [hex_world_index] is [SIZE_MAX] and [hex_world_tile] is null. *)
Theorem hex_world_index_bijection world p alloc w :
  enabled (hex p) = true -> hex_params_validate (hex p) = true ->
  hex_world_create world (Some p) alloc = (true, Some w) ->
  count w = width w * height w /\
  (forall q r, q_min w <= q <= q_max w -> r_min w <= r <= r_max w ->
     hex_world_index (Some w) q r = (r - r_min w) * width w + (q - q_min w) /\
     exists t, hex_world_tile (Some w) q r = Some t /\ tq t = q /\ tr t = r) /\
  (forall q r q' r', q_min w <= q <= q_max w -> r_min w <= r <= r_max w ->
     q_min w <= q' <= q_max w -> r_min w <= r' <= r_max w ->
     hex_world_index (Some w) q r = hex_world_index (Some w) q' r' -> q = q' /\ r = r') /\
  (forall q r, ~ (q_min w <= q <= q_max w /\ r_min w <= r <= r_max w) ->
     hex_world_index (Some w) q r = SIZE_MAX /\ hex_world_tile (Some w) q r = None).
Proof.
  intros Hen Hv Hc.
  destruct (create_ok world p alloc w Hen Hv Hc)
    as (Eqn & Eqx & Ern & Erx & Ew & Eh & Ec & _ & _ & _ & B1 & B2 & B3 & B4 & Bq & Br & Et).
  assert (Hidx : forall q r, q_min w <= q <= q_max w -> r_min w <= r <= r_max w ->
            hex_world_index (Some w) q r = (r - r_min w) * width w + (q - q_min w)).
  { intros q r Hq Hr. eapply index_in_box; [exact Et | lia | lia | lia | exact Hq | exact Hr]. }
  split; [rewrite Ec, Ew, Eh; reflexivity|].
  split; [|split].
  - intros q r Hq Hr. split; [apply Hidx; assumption|].
    unfold hex_world_tile. rewrite (Hidx q r Hq Hr).
    rewrite (proj2 (Z.eqb_neq _ _)) by (unfold SIZE_MAX; nia).
    rewrite Et.
    set (qs := p_q_max (hex p) - p_q_min (hex p) + 1) in *.
    set (rs := p_r_max (hex p) - p_r_min (hex p) + 1) in *.
    replace (Z.to_nat ((r - r_min w) * width w + (q - q_min w)))
      with (Z.to_nat (r - r_min w) * Z.to_nat qs + Z.to_nat (q - q_min w))%nat
      by (apply Nat2Z.inj; rewrite Z2Nat.id by nia;
          rewrite Nat2Z.inj_add, Nat2Z.inj_mul, !Z2Nat.id by lia; lia).
    rewrite generate_tiles_nth by lia.
    eexists; split; [reflexivity|].
    destruct (assign_keep (Some p) w
               (fresh_tile w (p_q_min (hex p) + Z.of_nat (Z.to_nat (q - q_min w)))
                             (p_r_min (hex p) + Z.of_nat (Z.to_nat (r - r_min w)))))
      as (Hq' & Hr' & _).
    rewrite Hq', Hr', fresh_tile_q, fresh_tile_r, !Z2Nat.id by lia.
    rewrite !to_int16_id by lia. split; lia.
  - intros q r q' r' Hq Hr Hq' Hr'. rewrite (Hidx q r Hq Hr), (Hidx q' r' Hq' Hr'). intros E.
    assert (r = r') by nia. subst r'. split; [lia | reflexivity].
  - intros q r Hn. apply index_out_of_box. exact Hn.
Qed.

Lemma hex_world_index_bijection_witness :
  enabled (hex small_params) = true /\ hex_params_validate (hex small_params) = true /\
  hex_world_create (Some empty_world) (Some small_params) true = (true, Some (built small_params)) /\
  count (built small_params) = width (built small_params) * height (built small_params).
Proof.
  assert (Hc : hex_world_create (Some empty_world) (Some small_params) true
               = (true, Some (built small_params))) by (vm_compute; reflexivity).
  split; [reflexivity|]. split; [vm_compute; reflexivity|]. split; [exact Hc|].
  exact (proj1 (hex_world_index_bijection (Some empty_world) small_params true (built small_params)
                  eq_refl ltac:(vm_compute; reflexivity) Hc)).
Defined.

(** C3: with the colony active ([rect_w > 0] and [rect_h > 0]), every
    generated tile whose centre lies in the colony rectangle is Hive
    terrain, and every generated tile outside the rectangle that passes
    the entrance axial and radial tests is Entrance terrain; the noise
    value plays no part in either case. *)
Theorem colony_precedence world p alloc b w ts t :
  hex_world_create world (Some p) alloc = (b, Some w) -> tiles w = Some ts -> In t ts ->
  hive_enabled (hive p) = true ->
  (in_colony_rect (hive p) t = true -> terrain t = HEX_TERRAIN_HIVE) /\
  (in_colony_rect (hive p) t = false -> entrance_axial_ok (hive p) w t = true ->
   entrance_radial_ok (hive p) w t = true -> terrain t = HEX_TERRAIN_ENTRANCE).
Proof.
  intros Hc Ht Hin Hh.
  destruct (generated_tile world p alloc b w ts t Hc Ht Hin) as (q & r & ->).
  apply assign_colony. exact Hh.
Qed.

Lemma colony_precedence_witness :
  let t := nth 111 (built_tiles default_params) zero_tile in
  hive_enabled (hive default_params) = true /\
  in_colony_rect (hive default_params) t = true /\ terrain t = HEX_TERRAIN_HIVE.
Proof.
  cbv zeta.
  assert (Hc : hex_world_create (Some empty_world) (Some default_params) true
               = (true, Some (built default_params))) by (vm_compute; reflexivity).
  assert (Ht : tiles (built default_params) = Some (built_tiles default_params))
    by (apply built_tiles_eq; vm_compute; discriminate).
  assert (Hin : In (nth 111 (built_tiles default_params) zero_tile) (built_tiles default_params))
    by (apply nth_In; vm_compute; lia).
  assert (Hh : hive_enabled (hive default_params) = true) by (vm_compute; reflexivity).
  assert (Hr : in_colony_rect (hive default_params) (nth 111 (built_tiles default_params) zero_tile)
               = true) by (vm_compute; reflexivity).
  split; [exact Hh|]. split; [exact Hr|].
  exact (proj1 (colony_precedence (Some empty_world) default_params true true (built default_params)
                  (built_tiles default_params) _ Hc Ht Hin Hh) Hr).
Defined.

(** C4: every generated tile satisfies [0 <= nectar_stock <= nectar_capacity],
    and [nectar_capacity == 0] implies [nectar_stock == 0] and
    [nectar_recharge_rate == 0], whatever its terrain. *)
Theorem generated_tiles_resource_ok world p alloc b w ts t :
  hex_world_create world (Some p) alloc = (b, Some w) -> tiles w = Some ts -> In t ts ->
  resource_ok t.
Proof.
  intros Hc Ht Hin.
  destruct (generated_tile world p alloc b w ts t Hc Ht Hin) as (q & r & ->).
  set (t0 := fresh_tile w q r).
  destruct (assign_nectar p w t0) as [(_ & _ & Es & Ec & Er) | [(Hf & Ec & Es & Er) | (Hf & _)]];
    cbv zeta in *.
  - unfold resource_ok. rewrite Es, Ec, Er.
    split; [split; [reflexivity | split; [reflexivity | simpl; lra]]|].
    split; [split; [reflexivity | split; [reflexivity | simpl; lra]]|].
    intros _. split; reflexivity.
  - unfold resource_ok. rewrite Es, Ec, Er, forest_stock_eq, forest_cap_eq.
    assert (Cs : canon (S754_finite false 9437184 (-20))) by (apply canon_fin; simpl; lia).
    assert (Cc : canon (S754_finite false 15728640 (-19))) by (apply canon_fin; simpl; lia).
    pose proof (canon_B2R_pos _ Cs).
    pose proof (proj1 (flt_canon _ _ Cs Cc) eq_refl).
    split; [split; [reflexivity | split; [reflexivity | simpl B2R at 1; lra]]|].
    split; [split; [reflexivity | split; [reflexivity | lra]]|].
    intros E. rewrite canon_feq_zero in E by exact Cc. discriminate.
  - destruct (flowers_tile p w t0 Hf) as (Cc & Cs & _ & _ & Hsc & _).
    unfold resource_ok.
    split; [split; [reflexivity | split; [apply canon_finite, Cs | simpl B2R at 1; lra]]|].
    split; [split; [apply canon_finite, Cs | split; [apply canon_finite, Cc | lra]]|].
    intros E. rewrite canon_feq_zero in E by exact Cc. discriminate.
Qed.

Lemma generated_tiles_resource_ok_witness :
  resource_ok (hd zero_tile (built_tiles flowers_cell_params)).
Proof.
  assert (Hc : hex_world_create (Some empty_world) (Some flowers_cell_params) true
               = (true, Some (built flowers_cell_params))) by (vm_compute; reflexivity).
  assert (Ht : tiles (built flowers_cell_params) = Some (built_tiles flowers_cell_params))
    by (apply built_tiles_eq; vm_compute; discriminate).
  assert (Hin : In (hd zero_tile (built_tiles flowers_cell_params)) (built_tiles flowers_cell_params))
    by (vm_compute; left; reflexivity).
  exact (generated_tiles_resource_ok (Some empty_world) flowers_cell_params true true
           (built flowers_cell_params) (built_tiles flowers_cell_params) _ Hc Ht Hin).
Defined.

(** C5: [noise_hash] is a 32-bit unsigned value that depends on [q] and [r]
    only through their [uint32_t] conversions (adding multiples of 2^32
    changes nothing); [pseudo_noise01 q r] is a finite float equal to the
    low 24 bits of the hash divided by 2^24, so it lies in [0, 1).  The
    function has no state: equal arguments give equal results. *)
Theorem pseudo_noise01_contract q r :
  0 <= noise_hash q r < 2 ^ 32 /\
  (forall a b, noise_hash (q + a * 2 ^ 32) (r + b * 2 ^ 32) = noise_hash q r) /\
  is_finite (pseudo_noise01 q r) = true /\
  B2R (pseudo_noise01 q r) = (IZR (Z.land (noise_hash q r) 16777215) / 16777216)%R /\
  (0 <= B2R (pseudo_noise01 q r) < 1)%R.
Proof.
  assert (Hk : 0 <= Z.land (noise_hash q r) 16777215 < 2 ^ 24).
  { change 16777215 with (Z.ones 24). rewrite Z.land_ones by lia. apply Z.mod_pos_bound. lia. }
  assert (HB : B2R (pseudo_noise01 q r) = (IZR (Z.land (noise_hash q r) 16777215) / 16777216)%R /\
               is_finite (pseudo_noise01 q r) = true).
  { destruct (pseudo_noise01_exact q r) as [[E ->] | (m & e & -> & Hm & He & _)].
    - rewrite E. simpl. split; [lra | reflexivity].
    - split; [|reflexivity].
      rewrite B2R_pos, Hm, mult_IZR, IZR_pow2 by lia.
      rewrite Rmult_assoc, <- bpow_plus. replace (-24 - e + e) with (-24) by lia.
      rewrite bpow_m24. reflexivity. }
  destruct HB as [HB Hf].
  split; [|split; [|split; [exact Hf | split; [exact HB|]]]].
  - unfold noise_hash. cbv zeta. apply lxor_bound; [lia| |].
    + apply to_uint32_bound.
    + apply shiftr_bound; [lia | apply to_uint32_bound].
  - intros a b. unfold noise_hash. rewrite !to_uint32_wrap. reflexivity.
  - rewrite HB. change 16777216%R with (IZR (2 ^ 24)).
    assert (0 <= IZR (Z.land (noise_hash q r) 16777215))%R by (apply IZR_le; lia).
    assert (IZR (Z.land (noise_hash q r) 16777215) < IZR (2 ^ 24))%R by (apply IZR_lt; lia).
    assert (0 < IZR (2 ^ 24))%R by (apply IZR_lt; lia).
    split; [unfold Rdiv; apply Rmult_le_pos; [lra | left; apply Rinv_0_lt_compat; lra]|].
    apply (Rmult_lt_reg_r (IZR (2 ^ 24))); [lra|]. unfold Rdiv. rewrite Rmult_assoc, Rinv_l by lra.
    lra.
Qed.

(** C6 (amended): [hex_axial_round] recomputes [q] from [r] and [s] exactly
    when the rounding error of [q] is strictly larger than both others;
    otherwise it recomputes [r] from [q] and [s] when the error of [r] is
    strictly larger than that of [s]; in every other case it keeps the
    rounded [q] and [r] (it is [s] that is corrected).  Comparisons are
    strict, so a tie goes to the later coordinate: when the error of [q]
    equals that of [r] or of [s], [q] keeps its rounded value; when the
    errors of [q] and [r] tie above that of [s], [r] is recomputed; when
    the errors of [q] and [s] tie above that of [r], or the errors of [r]
    and [s] tie above that of [q], [q] and [r] both keep their rounded
    values. *)
Theorem hex_axial_round_tie_order qf rf q r s qd rd sd :
  cube_round_parts qf rf = ((q, r, s), (qd, rd, sd)) ->
  (fgt qd rd = true -> fgt qd sd = true ->
     hex_axial_round qf rf = (to_int32 (- r - s), r)) /\
  ((fgt qd rd = false \/ fgt qd sd = false) -> fgt rd sd = true ->
     hex_axial_round qf rf = (q, to_int32 (- q - s))) /\
  ((fgt qd rd = false \/ fgt qd sd = false) -> fgt rd sd = false ->
     hex_axial_round qf rf = (q, r)) /\
  ((feq qd rd = true \/ feq qd sd = true) -> fst (hex_axial_round qf rf) = q) /\
  (feq rd sd = true -> snd (hex_axial_round qf rf) = r) /\
  (feq qd rd = true -> fgt rd sd = true -> hex_axial_round qf rf = (q, to_int32 (- q - s))) /\
  (feq qd sd = true -> fgt sd rd = true -> hex_axial_round qf rf = (q, r)) /\
  (feq rd sd = true -> fgt rd qd = true -> hex_axial_round qf rf = (q, r)).
Proof.
  intros H. unfold hex_axial_round. rewrite H. cbv beta iota.
  assert (NQ : forall b1 b2 : bool, (b1 = false \/ b2 = false) -> b1 && b2 = false)
    by (intros [] [] [E|E]; simpl; congruence).
  split; [|split; [|split; [|split; [|split; [|split; [|split]]]]]].
  - intros E1 E2. rewrite E1, E2. reflexivity.
  - intros E1 E2. rewrite (NQ _ _ E1), E2. reflexivity.
  - intros E1 E2. rewrite (NQ _ _ E1), E2. reflexivity.
  - intros [E|E]; apply feq_fgt in E as [E _]; rewrite E;
      [|rewrite andb_false_r]; cbn [andb];
      destruct (fgt rd sd); reflexivity.
  - intros E. apply feq_fgt in E as [E _]. rewrite E.
    destruct (fgt qd rd && fgt qd sd); reflexivity.
  - intros E1 E2. apply feq_fgt in E1 as [E1 _]. rewrite E1, E2. reflexivity.
  - intros E1 E2. apply feq_fgt in E1 as [E1 _]. apply fgt_asym in E2.
    rewrite E1, andb_false_r, E2. reflexivity.
  - intros E1 E2. apply feq_fgt in E1 as [E1 _]. apply fgt_asym in E2.
    rewrite E2, E1. reflexivity.
Qed.

Lemma hex_axial_round_tie_order_witness :
  cube_round_parts c0_5 c0_5 = ((0, 0, -1), (c0_5, c0_5, fzero)) /\
  hex_axial_round c0_5 c0_5 = (0, to_int32 (- 0 - -1)).
Proof.
  assert (H : cube_round_parts c0_5 c0_5 = ((0, 0, -1), (c0_5, c0_5, fzero)))
    by (vm_compute; reflexivity).
  split; [exact H|].
  apply (proj1 (proj2 (proj2 (proj2 (proj2 (proj2
           (hex_axial_round_tie_order c0_5 c0_5 0 0 (-1) c0_5 c0_5 fzero H)))))));
    vm_compute; reflexivity.
Defined.

(** C6: at [qf = rf = 0.5] the errors of [q] and [r] are both 0.5, the
    largest; the stated order would recompute [q] and give (1, 0), the code
    recomputes [r] and gives (0, 1). *)
Lemma hex_axial_round_tie_cex :
  cube_round_parts c0_5 c0_5 = ((0, 0, -1), (c0_5, c0_5, fzero)) /\
  feq c0_5 c0_5 = true /\ fgt c0_5 fzero = true /\
  hex_axial_round c0_5 c0_5 = (0, 1) /\ hex_axial_round c0_5 c0_5 <> (to_int32 (- 0 - -1), 0).
Proof. vm_compute. repeat split; discriminate. Qed.

(** C7 (amended): [hex_world_create] returns false exactly when the world
    pointer is null, or the hex configuration is enabled and a span is
    non-positive, or the tile allocation fails.  A null or disabled
    configuration is not a failure: the call returns true and leaves the
    empty world.  On a non-positive span the world left behind is the
    empty world (no tiles, [count == 0]). *)
Theorem hex_world_create_failure world params alloc :
  (fst (hex_world_create world params alloc) = false <->
   world = None \/
   exists p, params = Some p /\ enabled (hex p) = true /\
     (p_q_max (hex p) - p_q_min (hex p) + 1 <= 0 \/ p_r_max (hex p) - p_r_min (hex p) + 1 <= 0 \/
      (alloc = false /\
       to_size ((p_q_max (hex p) - p_q_min (hex p) + 1) * (p_r_max (hex p) - p_r_min (hex p) + 1))
         <> 0))) /\
  (world <> None -> (params = None \/ exists p, params = Some p /\ enabled (hex p) = false) ->
   hex_world_create world params alloc = (true, Some empty_world)) /\
  (world <> None -> forall p, params = Some p -> enabled (hex p) = true ->
   (p_q_max (hex p) - p_q_min (hex p) + 1 <= 0 \/ p_r_max (hex p) - p_r_min (hex p) + 1 <= 0) ->
   hex_world_create world params alloc = (false, Some empty_world)).
Proof.
  split; [|split].
  - unfold hex_world_create. destruct world as [w0|]; [|split; [intros _; left; reflexivity | reflexivity]].
    destruct params as [p|]; [|split; [discriminate | intros [H|(p & H & _)]; discriminate]].
    destruct (enabled (hex p)) eqn:En; cbn [negb].
    2: { split; [discriminate|]. intros [H|(p' & [= <-] & E & _)]; [discriminate|congruence]. }
    cbv zeta.
    destruct (Z.leb_spec (p_q_max (hex p) - p_q_min (hex p) + 1) 0) as [Q|Q];
      [split; [intros _; right; exists p; auto | reflexivity]|].
    destruct (Z.leb_spec (p_r_max (hex p) - p_r_min (hex p) + 1) 0) as [R|R];
      [split; [intros _; right; exists p; auto | reflexivity]|].
    cbn [orb].
    destruct (Z.eqb_spec (to_size ((p_q_max (hex p) - p_q_min (hex p) + 1) *
                                   (p_r_max (hex p) - p_r_min (hex p) + 1))) 0) as [Z0|Z0].
    + split; [discriminate|]. intros [H|(p' & [= <-] & _ & [H|[H|[_ H]]])]; [discriminate|lia|lia|].
      contradiction.
    + destruct alloc; cbn [negb fst].
      * split; [discriminate|]. intros [H|(p' & [= <-] & _ & [H|[H|[H _]]])]; [discriminate|lia|lia|].
        discriminate.
      * split; [intros _; right; exists p; auto 10 | reflexivity].
  - intros Hw Hp. destruct world as [w0|]; [|contradiction].
    destruct Hp as [->|(p & -> & E)]; [reflexivity|].
    unfold hex_world_create. rewrite E. reflexivity.
  - intros Hw p -> E Hs. destruct world as [w0|]; [|contradiction].
    unfold hex_world_create. rewrite E. cbv zeta. cbn [negb].
    destruct Hs as [Hs|Hs].
    + rewrite (proj2 (Z.leb_le _ 0) Hs). reflexivity.
    + rewrite (proj2 (Z.leb_le _ 0) Hs), orb_true_r. reflexivity.
Qed.

(** C7: with a non-null world and a null configuration the call succeeds
    and builds nothing; and when the allocation of the default lattice
    fails, the call returns false but leaves the bounds and [count = 315]
    in the world. *)
Lemma hex_world_create_null_params_cex :
  hex_world_create (Some empty_world) None true = (true, Some empty_world) /\
  exists w, hex_world_create (Some empty_world) (Some default_params) false = (false, Some w) /\
            count w = 315 /\ tiles w = None.
Proof.
  split; [reflexivity|].
  eexists. split; [vm_compute; reflexivity|]. split; reflexivity.
Qed.

(** C8 (amended): on a generated Flowers tile, with [n] the tile's noise
    value ([0.68 < n < 1]), the capacity is [240 + 60 * n] (so between 280.8
    and 300, growing by 60 per unit of the excess [n - 0.68]), the stock is
    the capacity times [0.55 + 0.4 * (n - 0.68)] (the clamp to [0.35, 0.95]
    never acts), and the recharge rate is [4.5 + 2 * (n - 0.68)], each up to
    the rounding of binary32. *)
Theorem flowers_resource_scaling world p alloc b w ts t :
  hex_world_create world (Some p) alloc = (b, Some w) -> tiles w = Some ts -> In t ts ->
  terrain t = HEX_TERRAIN_FLOWERS ->
  let n := B2R (pseudo_noise01 (tq t) (tr t)) in
  (68 / 100 < n < 1)%R /\
  (Rabs (B2R (nectar_capacity t) - (240 + 60 * n)) <= / 4096)%R /\
  (Rabs (B2R (nectar_stock t) - B2R (nectar_capacity t) * (55 / 100 + 4 / 10 * (n - 68 / 100)))
     <= / 1024)%R /\
  (Rabs (B2R (nectar_recharge_rate t) - (45 / 10 + 2 * (n - 68 / 100))) <= / 65536)%R.
Proof.
  intros Hc Ht Hin Hf.
  destruct (generated_tile world p alloc b w ts t Hc Ht Hin) as (q & r & ->).
  set (t0 := fresh_tile w q r) in *.
  destruct (assign_keep (Some p) w t0) as (Eq & Er & _).
  cbv zeta in *. rewrite Eq, Er.
  destruct (flowers_tile p w t0 Hf) as (_ & _ & _ & Hn & _ & Hc' & Hs & Hr).
  auto.
Qed.

Lemma flowers_resource_scaling_witness :
  let t := hd zero_tile (built_tiles flowers_cell_params) in
  terrain t = HEX_TERRAIN_FLOWERS /\
  (Rabs (B2R (nectar_capacity t) - (240 + 60 * B2R (pseudo_noise01 (tq t) (tr t)))) <= / 4096)%R.
Proof.
  cbv zeta.
  assert (Hc : hex_world_create (Some empty_world) (Some flowers_cell_params) true
               = (true, Some (built flowers_cell_params))) by (vm_compute; reflexivity).
  assert (Ht : tiles (built flowers_cell_params) = Some (built_tiles flowers_cell_params))
    by (apply built_tiles_eq; vm_compute; discriminate).
  assert (Hin : In (hd zero_tile (built_tiles flowers_cell_params)) (built_tiles flowers_cell_params))
    by (vm_compute; left; reflexivity).
  assert (Hf : terrain (hd zero_tile (built_tiles flowers_cell_params)) = HEX_TERRAIN_FLOWERS)
    by (vm_compute; reflexivity).
  split; [exact Hf|].
  exact (proj1 (proj2 (flowers_resource_scaling (Some empty_world) flowers_cell_params true true
           (built flowers_cell_params) (built_tiles flowers_cell_params) _ Hc Ht Hin Hf))).
Defined.

(** C8: the single cell (124, 1) of a lattice of cell size 1 is a Flowers
    tile whose noise exceeds 0.68 by less than 0.002; scaled linearly with
    that excess, at most 60 over the whole range of excess (0 to 0.32), its
    capacity would exceed 240 by less than 1, but it exceeds 240 by more
    than 40. *)
Lemma flowers_resource_scaling_cex :
  let t := hd zero_tile (built_tiles flowers_cell_params) in
  let excess := (B2R (pseudo_noise01 (tq t) (tr t)) - 68 / 100)%R in
  built_tiles flowers_cell_params = [t] /\ terrain t = HEX_TERRAIN_FLOWERS /\
  (0 < excess < 1 / 500)%R /\ (60 * (excess / (32 / 100)) < 1)%R /\
  (40 < B2R (nectar_capacity t) - 240)%R.
Proof.
  cbv zeta.
  assert (En : pseudo_noise01 (tq (hd zero_tile (built_tiles flowers_cell_params)))
                              (tr (hd zero_tile (built_tiles flowers_cell_params)))
               = S754_finite false 11440809 (-24)) by (vm_compute; reflexivity).
  assert (Ec : nectar_capacity (hd zero_tile (built_tiles flowers_cell_params))
               = S754_finite false 9205040 (-15)) by (vm_compute; reflexivity).
  rewrite En, Ec.
  change (-24) with (- (24)). change (-15) with (- (15)). rewrite !B2R_neg by lia.
  change (2 ^ 24) with 16777216. change (2 ^ 15) with 32768.
  split; [vm_compute; reflexivity|]. split; [vm_compute; reflexivity|].
  split; [split; lra|]. split; lra.
Qed.

(** C9: on a world built from a valid, enabled configuration, [hex_world_pick]
    matches exactly when the rounded cell of the point is in the bounding
    box, and then yields that cell with its index; a null world or a world
    without tiles never matches.  On the lattice of cell size 48, origin
    (0, 0), box [-2, 2] x [-2, 2] and no colony, the point (0, 0) picks the
    cell (0, 0) (index 12) and the point (1000, 1000) picks nothing. *)
Theorem hex_world_pick_contract world p alloc w :
  enabled (hex p) = true -> hex_params_validate (hex p) = true ->
  hex_world_create world (Some p) alloc = (true, Some w) ->
  (forall x y q r i,
     hex_world_pick (Some w) x y = Some (q, r, i) <->
     hex_axial_round (fst (hex_world_to_axial_f (Some w) x y))
                     (snd (hex_world_to_axial_f (Some w) x y)) = (q, r) /\
     q_min w <= q <= q_max w /\ r_min w <= r <= r_max w /\
     i = hex_world_index (Some w) q r /\ i = (r - r_min w) * width w + (q - q_min w)) /\
  (forall w' x y, tiles w' = None -> hex_world_pick (Some w') x y = None) /\
  (forall x y, hex_world_pick None x y = None) /\
  hex_world_pick (Some (built small_params)) fzero fzero = Some (0, 0, 12) /\
  hex_world_pick (Some (built small_params)) (of_Z 1000) (of_Z 1000) = None.
Proof.
  intros Hen Hv Hc.
  destruct (create_ok world p alloc w Hen Hv Hc)
    as (Eqn & Eqx & Ern & Erx & Ew & Eh & Ec & _ & _ & _ & B1 & B2 & B3 & B4 & Bq & Br & Et).
  split; [|split; [|split; [|split]]].
  - intros x y q r i. unfold hex_world_pick. rewrite Et.
    destruct (hex_world_to_axial_f (Some w) x y) as [qf rf]. cbn [fst snd].
    destruct (hex_axial_round qf rf) as [q0 r0].
    destruct (hex_world_in_bounds (Some w) q0 r0) eqn:Hb.
    + unfold hex_world_in_bounds in Hb. rewrite Et in Hb.
      rewrite !andb_true_iff, !Z.leb_le in Hb.
      assert (Hi : hex_world_index (Some w) q0 r0 = (r0 - r_min w) * width w + (q0 - q_min w))
        by (eapply index_in_box; [exact Et | lia | lia | lia | lia | lia]).
      cbn [negb]. rewrite Hi, (proj2 (Z.eqb_neq _ _)) by (unfold SIZE_MAX; nia).
      split.
      * intros [= <- <- <-]. repeat split; lia.
      * intros ([= <- <-] & _ & _ & -> & _). rewrite Hi. reflexivity.
    + cbn [negb]. split; [discriminate|].
      intros ([= <- <-] & Hq & Hr & _). exfalso.
      unfold hex_world_in_bounds in Hb. rewrite Et in Hb.
      rewrite (proj2 (Z.leb_le _ _) (proj1 Hq)), (proj2 (Z.leb_le _ _) (proj2 Hq)),
              (proj2 (Z.leb_le _ _) (proj1 Hr)), (proj2 (Z.leb_le _ _) (proj2 Hr)) in Hb.
      discriminate.
  - intros w' x y Ht. unfold hex_world_pick. rewrite Ht. reflexivity.
  - reflexivity.
  - vm_compute. reflexivity.
  - vm_compute. reflexivity.
Qed.

Lemma hex_world_pick_contract_witness :
  hex_world_pick (Some (built small_params)) fzero fzero = Some (0, 0, 12).
Proof.
  assert (Hc : hex_world_create (Some empty_world) (Some small_params) true
               = (true, Some (built small_params))) by (vm_compute; reflexivity).
  assert (Hv : hex_params_validate (hex small_params) = true) by (vm_compute; reflexivity).
  exact (proj1 (proj2 (proj2 (proj2 (hex_world_pick_contract (Some empty_world) small_params true
           (built small_params) eq_refl Hv Hc))))).
Defined.

(** C10: [hex_axial_to_world] returns (0, 0) for every [(q, r)] when the
    world pointer is null or the world has no tile array, whatever its
    cell size and origin. *)
Theorem hex_axial_to_world_absent world q r :
  (world = None \/ exists w, world = Some w /\ tiles w = None) ->
  hex_axial_to_world world q r = (fzero, fzero).
Proof.
  intros [-> | (w & -> & Ht)]; [reflexivity|].
  unfold hex_axial_to_world. rewrite Ht. reflexivity.
Qed.

Lemma hex_axial_to_world_absent_witness :
  let world := snd (hex_world_create (Some empty_world) (Some default_params) false) in
  hex_axial_to_world world 5 (-3) = (fzero, fzero).
Proof.
  cbv zeta. apply hex_axial_to_world_absent. right.
  exists (match snd (hex_world_create (Some empty_world) (Some default_params) false) with
          | Some w => w
          | None => empty_world
          end).
  split; vm_compute; reflexivity.
Defined.

(** * Further properties of the code: drawing, buffers, overlay state *)

Lemma canonb_canon x : canonb x = true -> canon x.
Proof.
  destruct x as [| | |[] m e]; try discriminate.
  simpl. rewrite andb_true_iff, Z.leb_le, Z.ltb_lt. intros H. exists m, e. auto.
Qed.

Lemma c1_canon : canon c1.
Proof. apply canonb_canon. vm_compute. reflexivity. Qed.

Lemma unit_check_ok x : unit_check x = true -> in_unit x.
Proof.
  unfold unit_check. rewrite andb_true_iff, negb_true_iff. intros [Hc Hl].
  apply canonb_canon in Hc.
  split; split; try split; try (apply canon_finite; auto using c1_canon); try reflexivity.
  - change (B2R c0) with 0%R. left. apply canon_B2R_pos. exact Hc.
  - destruct (Rle_or_lt (B2R x) (B2R c1)) as [H|H]; [exact H|].
    apply (flt_canon c1 x c1_canon Hc) in H. congruence.
Qed.

Lemma rgba_check_ok c : rgba_check c = true -> rgba_in_unit c.
Proof.
  destruct c as [[[c_r c_g] c_b] c_a]. simpl. rewrite !andb_true_iff.
  intros [[[H1 H2] H3] H4]. repeat split; try apply unit_check_ok; assumption.
Qed.

Lemma palette_check : forallb rgba_check palette = true.
Proof. vm_compute. reflexivity. Qed.

Lemma hex_tile_palette_In t : In (hex_tile_palette t) palette.
Proof.
  unfold hex_tile_palette. apply nth_In. destruct (t <? HEX_TERRAIN_COUNT) eqn:E.
  - apply Z.ltb_lt in E. unfold HEX_TERRAIN_COUNT in E. simpl. lia.
  - simpl. lia.
Qed.

(** X1: every colour of the palette has its four components in [[0,1]]. *)
Theorem hex_tile_palette_in_unit (terrain : Z) : rgba_in_unit (hex_tile_palette terrain).
Proof.
  apply rgba_check_ok. pose proof palette_check as H. rewrite forallb_forall in H.
  apply H, hex_tile_palette_In.
Qed.

(** ensure_capacity *)




Lemma to_size_double j : 0 <= j < 63 -> to_size (2 ^ j * 2) = 2 ^ (j + 1).
Proof.
  intros Hj. rewrite Z.pow_add_r, Z.pow_1_r by lia. apply to_size_id.
  split; [pose proof (Z.pow_pos_nonneg 2 j); lia|].
  change (2 ^ 64) with (2 ^ 63 * 2). apply Z.mul_lt_mono_pos_r; [lia|].
  apply Z.pow_lt_mono_r; lia.
Qed.

Lemma grow_pow2 fuel d j :
  0 < d <= 2 ^ 63 -> 0 <= j <= 63 -> 63 - j < Z.of_nat fuel ->
  exists k, grow_capacity fuel d (2 ^ j) = Some (2 ^ k) /\ j <= k <= 63 /\ d <= 2 ^ k /\
            (k = j \/ 2 ^ k < 2 * d).
Proof.
  revert j. induction fuel as [|fuel IH]; intros j Hd Hj Hf; [lia|]. cbn [grow_capacity].
  destruct (2 ^ j <? d) eqn:E.
  - apply Z.ltb_lt in E.
    assert (j < 63). { destruct (Z.eq_dec j 63); [subst; lia|lia]. }
    rewrite to_size_double by lia.
    destruct (IH (j + 1)) as (k & G & Hk & Hdk & Hor); [lia|lia|lia|].
    exists k. split; [exact G|]. split; [lia|]. split; [exact Hdk|]. right.
    destruct Hor as [->|Hor]; [|exact Hor].
    rewrite Z.pow_add_r, Z.pow_1_r by lia. lia.
  - apply Z.ltb_ge in E. exists j. repeat split; auto; lia.
Qed.

Lemma ensure_capacity_grow fuel capacity desired :
  pow2_or_zero capacity -> 0 < desired <= 2 ^ 63 -> (64 <= fuel)%nat ->
  exists capacity', ensure_capacity fuel true capacity desired = Some (true, capacity') /\
    pow2_or_zero capacity' /\ desired <= capacity' /\
    (capacity' = capacity \/ capacity' = 256 \/ capacity' < 2 * desired) /\
    ensure_capacity fuel false capacity desired =
      Some (desired <=? capacity, capacity).
Proof.
  intros Hc Hd Hf. unfold ensure_capacity.
  rewrite (proj2 (Z.eqb_neq desired 0)) by lia.
  destruct (desired <=? capacity) eqn:E.
  - exists capacity. apply Z.leb_le in E. repeat split; auto.
  - apply Z.leb_gt in E.
    assert (Hs : exists j, 0 <= j <= 63 /\ (if capacity =? 0 then 256 else capacity) = 2 ^ j /\
                  (capacity = 0 -> j = 8) /\ (capacity <> 0 -> capacity = 2 ^ j)).
    { destruct Hc as [->|(k & Hk & ->)].
      - exists 8. repeat split; try lia; reflexivity.
      - rewrite (proj2 (Z.eqb_neq _ 0)) by (pose proof (Z.pow_pos_nonneg 2 k); lia).
        exists k. repeat split; auto; intros; pose proof (Z.pow_pos_nonneg 2 k); lia. }
    destruct Hs as (j & Hj & -> & Hz & Hnz).
    destruct (grow_pow2 fuel desired j Hd Hj ltac:(lia)) as (k & -> & Hk & Hdk & Hor).
    exists (2 ^ k). split; [reflexivity|]. split; [right; exists k; split; [lia|reflexivity]|].
    split; [exact Hdk|]. split; [|reflexivity].
    destruct Hor as [->|Hor]; [|right; right; exact Hor].
    destruct (Z.eq_dec capacity 0) as [Ez|Ez].
    + right; left. rewrite (Hz Ez). reflexivity.
    + left. symmetry. apply Hnz, Ez.
Qed.

Lemma grow_diverges fuel d v :
  2 ^ 63 < d -> (v = 0 \/ exists j, 0 <= j <= 63 /\ v = 2 ^ j) -> grow_capacity fuel d v = None.
Proof.
  revert v. induction fuel as [|fuel IH]; intros v Hd Hv; [reflexivity|]. cbn [grow_capacity].
  assert (Hlt : v < d).
  { destruct Hv as [->|(j & Hj & ->)]; [lia|].
    pose proof (Z.pow_le_mono_r 2 j 63 ltac:(lia) ltac:(lia)). lia. }
  rewrite (proj2 (Z.ltb_lt _ _) Hlt). apply IH; [exact Hd|].
  destruct Hv as [->|(j & Hj & ->)]; [left; reflexivity|].
  destruct (Z.eq_dec j 63) as [->|Hne].
  - left. vm_compute. reflexivity.
  - right. exists (j + 1). split; [lia|]. apply to_size_double. lia.
Qed.

(** X3: starting from zero or a power of two, a request above [2^63]
    elements makes the doubling wrap to zero, and the loop of
    [ensure_capacity] never terminates. *)
Theorem ensure_capacity_diverges fuel realloc_ok capacity desired :
  pow2_or_zero capacity -> 2 ^ 63 < desired ->
  ensure_capacity fuel realloc_ok capacity desired = None.
Proof.
  intros Hc Hd. unfold ensure_capacity.
  rewrite (proj2 (Z.eqb_neq desired 0)) by lia.
  assert (Hcap : capacity < desired).
  { destruct Hc as [->|(k & Hk & ->)]; [lia|].
    pose proof (Z.pow_le_mono_r 2 k 63 ltac:(lia) ltac:(lia)). lia. }
  rewrite (proj2 (Z.leb_gt _ _) Hcap).
  rewrite grow_diverges; [reflexivity|exact Hd|].
  destruct Hc as [->|(k & Hk & ->)].
  - right. exists 8. split; [lia|reflexivity].
  - rewrite (proj2 (Z.eqb_neq _ 0)) by (pose proof (Z.pow_pos_nonneg 2 k); lia).
    right. exists k. auto.
Qed.

Lemma ensure_capacity_diverges_witness :
  ensure_capacity 64 true 0 (2 ^ 63 + 1) = None.
Proof.
  assert (H1 : pow2_or_zero 0) by (left; reflexivity).
  assert (H2 : 2 ^ 63 < 2 ^ 63 + 1) by lia.
  exact (ensure_capacity_diverges 64 true 0 (2 ^ 63 + 1) H1 H2).
Defined.

(** X4: starting from zero or a power of two, and for a request of at most
    [2^63] elements, [ensure_capacity] terminates with a power of two that
    holds the request, below twice the request unless it is the old
    capacity or the initial 256; a failed reallocation keeps the capacity. *)
Theorem ensure_capacity_pow2 fuel capacity desired :
  pow2_or_zero capacity -> 0 < desired <= 2 ^ 63 -> (64 <= fuel)%nat ->
  exists capacity', ensure_capacity fuel true capacity desired = Some (true, capacity') /\
    pow2_or_zero capacity' /\ desired <= capacity' /\
    (capacity' = capacity \/ capacity' = 256 \/ capacity' < 2 * desired) /\
    ensure_capacity fuel false capacity desired =
      Some (desired <=? capacity, capacity).
Proof. exact (ensure_capacity_grow fuel capacity desired). Qed.

Lemma enumerate_from_fst {A} i (l : list A) p : In p (enumerate_from i l) -> i <= fst p.
Proof.
  revert i. induction l as [|x l IH]; intros i; simpl; [tauto|].
  intros [<-|H]; [simpl; lia|]. apply IH in H. lia.
Qed.

Lemma ensure_capacity_pow2_witness :
  exists capacity', ensure_capacity 64 true 256 1000 = Some (true, capacity') /\
    pow2_or_zero capacity' /\ 1000 <= capacity'.
Proof.
  assert (H1 : pow2_or_zero 256) by (right; exists 8; split; [lia|reflexivity]).
  assert (H2 : 0 < 1000 <= 2 ^ 63) by lia.
  assert (H3 : (64 <= 64)%nat) by lia.
  destruct (ensure_capacity_pow2 64 256 1000 H1 H2 H3) as (c & E & P & L & _).
  exists c. split; [exact E|]. split; [exact P|exact L].
Defined.

Lemma find_enumerate_none {A} (f : A -> bool) i si (l : list A) :
  si < i -> find (fun p => (fst p =? si) && f (snd p)) (enumerate_from i l) = None.
Proof.
  revert i. induction l as [|x l IH]; intros i Hi; simpl; [reflexivity|].
  rewrite (proj2 (Z.eqb_neq i si)) by lia. apply IH. lia.
Qed.

Lemma render_loop_spec w sv si i ts hl :
  render_loop w sv si i ts hl =
  (map (fun p => tile_instance w (snd p) (sv && (fst p =? si)))
       (filter (fun p => tile_visible (snd p)) (enumerate_from i ts)),
   match (if sv then find (fun p => (fst p =? si) && tile_visible (snd p)) (enumerate_from i ts)
          else None) with
   | Some p => Some (highlight_of (tile_instance w (snd p) true))
   | None => hl
   end).
Proof.
  revert i hl. induction ts as [|t ts IH]; intros i hl.
  - simpl. destruct sv; reflexivity.
  - cbn [render_loop enumerate_from filter find fst snd map].
    replace (Z.land (flags t) HEX_TILE_VISIBLE =? 0) with (negb (tile_visible t))
      by (unfold tile_visible; apply negb_involutive).
    destruct (tile_visible t) eqn:V; cbn [negb andb].
    2: { rewrite IH. destruct sv; [rewrite andb_false_r|]; reflexivity. }
    rewrite IH. cbn [fst snd map]. f_equal.
      destruct sv; cbn [andb]; [|reflexivity].
      destruct (i =? si) eqn:E; cbn [andb].
      * apply Z.eqb_eq in E. subst si.
        rewrite find_enumerate_none by lia. reflexivity.
      * reflexivity.
Qed.







(** X6: the instances drawn are those of the visible tiles among the first
    [count], in index order, and the outline is the highlighted instance of
    the selected tile when it is valid and visible. *)
Theorem hex_draw_render_instances fuel realloc_ok capacity w ts si en top fb_width fb_height cam_zoom :
  tiles w = Some ts ->
  let prm := {| rh_world := Some w; rh_selected_index := si; rh_enabled := en;
                rh_draw_on_top := top |} in
  let shown := firstn (Z.to_nat (count w)) ts in
  let sv := negb (si =? SIZE_MAX) && (si <? count w) in
  match hex_draw_render fuel realloc_ok (Some capacity) (Some prm) fb_width fb_height cam_zoom with
  | Some (true, _, Some calls) =>
      drawn calls =
        map (fun p => tile_instance w (snd p) (sv && (fst p =? si)))
            (filter (fun p => tile_visible (snd p)) (enumerate_from 0 shown)) /\
      outline calls =
        match (if sv then find (fun p => (fst p =? si) && tile_visible (snd p)) (enumerate_from 0 shown)
               else None) with
        | Some p => Some (highlight_of (tile_instance w (snd p) true))
        | None => None
        end
  | _ => True
  end.
Proof.
  intros Tw. cbv zeta. unfold hex_draw_render. cbn [rh_enabled rh_world rh_selected_index].
  rewrite Tw. destruct en; cbn [negb]; [|exact I].
  destruct (count w =? 0); [exact I|].
  destruct (_ || _ || _); [exact I|].
  match goal with |- context [Z.of_nat (length ?L) =? 0] => destruct (Z.of_nat (length L) =? 0) end;
    [exact I|].
  destruct (ensure_capacity _ _ _ _) as [[[] cap]|]; [|exact I|exact I].
  rewrite render_loop_spec. split; reflexivity.
Qed.

Lemma hex_draw_render_instances_witness :
  let w := built flowers_cell_params in
  let prm := {| rh_world := Some w; rh_selected_index := 0; rh_enabled := true;
                rh_draw_on_top := false |} in
  match hex_draw_render 64 true (Some 0) (Some prm) 1280 720 c1 with
  | Some (true, _, Some calls) =>
      drawn calls =
        map (fun p => tile_instance w (snd p) (true && (fst p =? 0)))
            (filter (fun p => tile_visible (snd p))
                    (enumerate_from 0 (firstn (Z.to_nat (count w)) (built_tiles flowers_cell_params)))) /\
      outline calls =
        match find (fun p => (fst p =? 0) && tile_visible (snd p))
                   (enumerate_from 0 (firstn (Z.to_nat (count w)) (built_tiles flowers_cell_params))) with
        | Some p => Some (highlight_of (tile_instance w (snd p) true))
        | None => None
        end
  | _ => True
  end.
Proof.
  assert (H : tiles (built flowers_cell_params) = Some (built_tiles flowers_cell_params))
    by (vm_compute; reflexivity).
  exact (hex_draw_render_instances 64 true 0 (built flowers_cell_params)
           (built_tiles flowers_cell_params) 0 true false 1280 720 c1 H).
Defined.

Lemma tile_instance_color w t b : rgba_check (inst_color (tile_instance w t b)) = true.
Proof.
  unfold tile_instance. destruct (terrain t); destruct b; vm_compute; reflexivity.
Qed.

(** X7: every colour [hex_draw_render] uploads, filled or outline, has its
    four components in [[0,1]]. *)
Theorem hex_draw_render_colors fuel realloc_ok ctx params fb_width fb_height cam_zoom :
  match hex_draw_render fuel realloc_ok ctx params fb_width fb_height cam_zoom with
  | Some (_, _, Some calls) =>
      Forall (fun inst => rgba_in_unit (inst_color inst)) (drawn calls) /\
      (forall h, outline calls = Some h -> rgba_in_unit (inst_color h))
  | _ => True
  end.
Proof.
  unfold hex_draw_render.
  destruct ctx as [capacity|]; [|exact I]. destruct params as [prm|]; [|exact I].
  destruct (negb (rh_enabled prm)); [exact I|].
  destruct (rh_world prm) as [w|]; [|exact I]. destruct (tiles w) as [ts|]; [|exact I].
  destruct (count w =? 0); [exact I|]. destruct (_ || _ || _); [exact I|].
  match goal with |- context [Z.of_nat (length ?L) =? 0] => destruct (Z.of_nat (length L) =? 0) end;
    [exact I|].
  destruct (ensure_capacity _ _ _ _) as [[[] cap]|]; [|exact I|exact I].
  rewrite render_loop_spec. cbn [drawn outline]. split.
  - apply Forall_forall. intros inst Hin. apply in_map_iff in Hin.
    destruct Hin as (p & <- & _). apply rgba_check_ok, tile_instance_color.
  - intros h. match goal with |- match ?X with _ => _ end = _ -> _ => destruct X as [p|] end;
      [|discriminate].
    intros [= <-]. apply rgba_check_ok. vm_compute. reflexivity.
Qed.

Lemma fadd_comm x y : fadd x y = fadd y x.
Proof.
  unfold fadd, SFadd.
  destruct x as [sx|sx| |sx mx ex], y as [sy|sy| |sy my ey]; try reflexivity.
  - destruct sx, sy; reflexivity.
  - destruct sx, sy; reflexivity.
  - rewrite Z.min_comm, Z.add_comm. reflexivity.
Qed.

Lemma assign_flags params w t : flags (assign_tile_defaults params w t) = HEX_TILE_VISIBLE.
Proof.
  unfold assign_tile_defaults, classify_by_noise. cbv zeta.
  destruct params; destruct_ifs; reflexivity.
Qed.

Lemma assign_flow params w t :
  flow_capacity (assign_tile_defaults params w t) = terrain_flow (terrain (assign_tile_defaults params w t)).
Proof.
  unfold assign_tile_defaults, classify_by_noise. cbv zeta.
  destruct params; destruct_ifs; reflexivity.
Qed.

Lemma classify_not_colony w t :
  terrain t = HEX_TERRAIN_OPEN ->
  terrain (classify_by_noise w t) <> HEX_TERRAIN_HIVE /\
  terrain (classify_by_noise w t) <> HEX_TERRAIN_ENTRANCE.
Proof.
  intros Ht. unfold classify_by_noise. cbv zeta.
  destruct_ifs; cbn [terrain set_terrain set_nectar]; rewrite ?Ht; split; discriminate.
Qed.

(** The tile [hex_world_tile] returns inside the bounding box of a built world. *)
Lemma built_tile_at world p alloc w q r :
  enabled (hex p) = true -> hex_params_validate (hex p) = true ->
  hex_world_create world (Some p) alloc = (true, Some w) ->
  q_min w <= q <= q_max w -> r_min w <= r <= r_max w ->
  hex_world_tile (Some w) q r = Some (assign_tile_defaults (Some p) w (fresh_tile w q r)).
Proof.
  intros Hen Hv Hc Hq Hr.
  destruct (create_ok world p alloc w Hen Hv Hc)
    as (Eqn & Eqx & Ern & Erx & Ew & Eh & Ec & _ & _ & _ & B1 & B2 & B3 & B4 & Bq & Br & Et).
  assert (Hidx : hex_world_index (Some w) q r = (r - r_min w) * width w + (q - q_min w)).
  { eapply index_in_box; [exact Et | lia | lia | lia | exact Hq | exact Hr]. }
  unfold hex_world_tile. rewrite Hidx.
  rewrite (proj2 (Z.eqb_neq _ _)) by (unfold SIZE_MAX; nia).
  rewrite Et.
  set (qs := p_q_max (hex p) - p_q_min (hex p) + 1) in *.
  set (rs := p_r_max (hex p) - p_r_min (hex p) + 1) in *.
  replace (Z.to_nat ((r - r_min w) * width w + (q - q_min w)))
    with (Z.to_nat (r - r_min w) * Z.to_nat qs + Z.to_nat (q - q_min w))%nat
    by (apply Nat2Z.inj; rewrite Z2Nat.id by nia;
        rewrite Nat2Z.inj_add, Nat2Z.inj_mul, !Z2Nat.id by lia; lia).
  rewrite generate_tiles_nth by lia.
  rewrite !Z2Nat.id by lia. f_equal. f_equal. f_equal; lia.
Qed.

(** The length of the tile array of a built world. *)
Lemma built_length world p alloc w ts :
  enabled (hex p) = true -> hex_params_validate (hex p) = true ->
  hex_world_create world (Some p) alloc = (true, Some w) -> tiles w = Some ts ->
  Z.of_nat (length ts) = count w /\ 0 < count w <= 65535 * 65535.
Proof.
  intros Hen Hv Hc Ht.
  destruct (create_ok world p alloc w Hen Hv Hc)
    as (_ & _ & _ & _ & _ & _ & Ec & _ & _ & _ & _ & _ & _ & _ & Bq & Br & Et).
  rewrite Ht in Et. injection Et as ->. rewrite generate_tiles_length.
  rewrite Nat2Z.inj_mul, !Z2Nat.id by lia. rewrite Ec. split; [lia|nia].
Qed.

(** [hex_world_create] on a valid, enabled configuration: the allocation
    decides the outcome. *)
Lemma create_valid_outcome w0 p alloc :
  enabled (hex p) = true -> hex_params_validate (hex p) = true ->
  exists w, hex_world_create (Some w0) (Some p) alloc = (alloc, Some w) /\
            (tiles w = None <-> alloc = false).
Proof.
  intros Hen Hv.
  unfold hex_params_validate in Hv. rewrite Hen in Hv. cbn [negb orb] in Hv.
  rewrite !andb_true_iff, !Z.leb_le, !Z.ltb_lt in Hv.
  destruct Hv as [[[[[[[[[[_ H1] H2] H3] H4] H5] H6] H7] H8] H9] H10].
  unfold hex_world_create. rewrite Hen. cbv zeta. cbn [negb].
  rewrite (proj2 (Z.leb_gt _ 0) H7), (proj2 (Z.leb_gt _ 0) H8). cbn [orb].
  rewrite to_size_id by (change (2 ^ 64) with 18446744073709551616; nia).
  rewrite (proj2 (Z.eqb_neq ((p_q_max (hex p) - p_q_min (hex p) + 1) *
                             (p_r_max (hex p) - p_r_min (hex p) + 1)) 0)) by nia.
  destruct alloc; cbn [negb]; eexists; (split; [reflexivity|]); cbn [tiles]; split;
    (discriminate || reflexivity).
Qed.

(** X8: a valid, enabled configuration always builds. *)
Theorem hex_world_create_valid w0 p :
  enabled (hex p) = true -> hex_params_validate (hex p) = true ->
  exists w ts,
    hex_world_create (Some w0) (Some p) true = (true, Some w) /\ tiles w = Some ts /\
    q_min w = p_q_min (hex p) /\ q_max w = p_q_max (hex p) /\
    r_min w = p_r_min (hex p) /\ r_max w = p_r_max (hex p) /\
    count w = width w * height w /\ Z.of_nat (length ts) = count w /\ 0 < count w /\
    Forall (fun t => flags t = HEX_TILE_VISIBLE) ts.
Proof.
  intros Hen Hv.
  assert (Hs : exists w, hex_world_create (Some w0) (Some p) true = (true, Some w) /\ tiles w <> None).
  { destruct (create_valid_outcome w0 p true Hen Hv) as (w & Hc & Hn).
    exists w. split; [exact Hc|]. rewrite Hn. discriminate. }
  destruct Hs as (w & Hc & Hn). destruct (tiles w) as [ts|] eqn:Ht; [|contradiction].
  exists w, ts.
  destruct (create_ok (Some w0) p true w Hen Hv Hc)
    as (Eqn & Eqx & Ern & Erx & Ew & Eh & Ec & _).
  destruct (built_length (Some w0) p true w ts Hen Hv Hc Ht) as [HL Hpos].
  split; [exact Hc|]. split; [exact Ht|]. do 4 (split; [assumption|]).
  split; [rewrite Ec, Ew, Eh; reflexivity|]. split; [exact HL|]. split; [lia|].
  apply Forall_forall. intros t Hin.
  destruct (generated_tile (Some w0) p true true w ts t Hc Ht Hin) as (q & r & ->).
  apply assign_flags.
Qed.

Lemma hex_world_create_valid_witness :
  exists w ts,
    hex_world_create (Some empty_world) (Some default_params) true = (true, Some w) /\
    tiles w = Some ts /\ Z.of_nat (length ts) = count w /\
    Forall (fun t => flags t = HEX_TILE_VISIBLE) ts.
Proof.
  assert (H1 : enabled (hex default_params) = true) by reflexivity.
  assert (H2 : hex_params_validate (hex default_params) = true) by (vm_compute; reflexivity).
  destruct (hex_world_create_valid empty_world default_params H1 H2)
    as (w & ts & E & T & _ & _ & _ & _ & _ & L & _ & F).
  exists w, ts. auto.
Defined.

(** The centre stored in a tile of a built world. *)
Lemma stored_center world p alloc w q r :
  enabled (hex p) = true -> hex_params_validate (hex p) = true ->
  hex_world_create world (Some p) alloc = (true, Some w) ->
  q_min w <= q <= q_max w -> r_min w <= r <= r_max w ->
  exists t, hex_world_tile (Some w) q r = Some t /\
            (center_x t, center_y t) = hex_axial_to_world (Some w) q r.
Proof.
  intros Hen Hv Hc Hq Hr.
  rewrite (built_tile_at world p alloc w q r Hen Hv Hc Hq Hr).
  eexists. split; [reflexivity|].
  destruct (assign_keep (Some p) w (fresh_tile w q r)) as (_ & _ & Hx & Hy).
  rewrite Hx, Hy, fresh_tile_center.
  destruct (create_ok world p alloc w Hen Hv Hc) as (_ & _ & _ & _ & _ & _ & _ & _ & _ & _ & _ & _ & _ & _ & _ & _ & Et).
  unfold tile_center, hex_axial_to_world. rewrite Et.
  rewrite (fadd_comm (origin_x w)), (fadd_comm (origin_y w)). reflexivity.
Qed.

(** X9: the flow capacity and flags of every generated tile. *)
Theorem generated_flow_flags world p alloc b w ts t :
  hex_world_create world (Some p) alloc = (b, Some w) -> tiles w = Some ts -> In t ts ->
  flow_capacity t = terrain_flow (terrain t) /\ flags t = HEX_TILE_VISIBLE.
Proof.
  intros Hc Ht Hin.
  destruct (generated_tile world p alloc b w ts t Hc Ht Hin) as (q & r & ->).
  split; [apply assign_flow|apply assign_flags].
Qed.

Lemma generated_flow_flags_witness :
  let t := nth 111 (built_tiles default_params) zero_tile in
  terrain t = HEX_TERRAIN_HIVE /\ flow_capacity t = of_Z 35 /\ flags t = HEX_TILE_VISIBLE.
Proof.
  cbv zeta.
  assert (Hc : hex_world_create (Some empty_world) (Some default_params) true
               = (true, Some (built default_params))) by (vm_compute; reflexivity).
  assert (Ht : tiles (built default_params) = Some (built_tiles default_params))
    by (vm_compute; reflexivity).
  assert (Hin : In (nth 111 (built_tiles default_params) zero_tile) (built_tiles default_params))
    by (apply nth_In; vm_compute; lia).
  assert (Hk : terrain (nth 111 (built_tiles default_params) zero_tile) = HEX_TERRAIN_HIVE)
    by (vm_compute; reflexivity).
  destruct (generated_flow_flags (Some empty_world) default_params true true (built default_params)
              (built_tiles default_params) _ Hc Ht Hin) as [F G].
  rewrite Hk in F. split; [exact Hk|]. split; [exact F|exact G].
Defined.

(** X10: Hive and Entrance tiles appear only where the colony rules put them. *)
Theorem colony_terrain_only world p alloc b w ts t :
  hex_world_create world (Some p) alloc = (b, Some w) -> tiles w = Some ts -> In t ts ->
  (terrain t = HEX_TERRAIN_HIVE ->
     hive_enabled (hive p) = true /\ in_colony_rect (hive p) t = true) /\
  (terrain t = HEX_TERRAIN_ENTRANCE ->
     hive_enabled (hive p) = true /\ in_colony_rect (hive p) t = false /\
     entrance_axial_ok (hive p) w t = true /\ entrance_radial_ok (hive p) w t = true).
Proof.
  intros Hc Ht Hin.
  destruct (generated_tile world p alloc b w ts t Hc Ht Hin) as (q & r & ->).
  set (t0 := fresh_tile w q r).
  destruct (assign_keep (Some p) w t0) as (_ & _ & Hx & Hy).
  destruct (colony_tests_centers (hive p) w _ _ Hx Hy) as (-> & -> & ->).
  unfold assign_tile_defaults. cbv zeta.
  match goal with
  | |- context [classify_by_noise w ?R] =>
      destruct (colony_tests_centers (hive p) w R t0 eq_refl eq_refl) as (<- & <- & <-);
      destruct (classify_not_colony w R eq_refl) as [N1 N2]
  end.
  destruct (hive_enabled (hive p)).
  - destruct (in_colony_rect _ _).
    + split; [auto|discriminate].
    + destruct (entrance_axial_ok _ _ _) eqn:A, (entrance_radial_ok _ _ _) eqn:R; cbn [andb];
        split; intros E; try discriminate; try contradiction; auto.
  - split; intros E; contradiction.
Qed.

Lemma colony_terrain_only_witness :
  let t := nth 111 (built_tiles default_params) zero_tile in
  hive_enabled (hive default_params) = true /\ in_colony_rect (hive default_params) t = true.
Proof.
  cbv zeta.
  assert (Hc : hex_world_create (Some empty_world) (Some default_params) true
               = (true, Some (built default_params))) by (vm_compute; reflexivity).
  assert (Ht : tiles (built default_params) = Some (built_tiles default_params))
    by (vm_compute; reflexivity).
  assert (Hin : In (nth 111 (built_tiles default_params) zero_tile) (built_tiles default_params))
    by (apply nth_In; vm_compute; lia).
  assert (Hk : terrain (nth 111 (built_tiles default_params) zero_tile) = HEX_TERRAIN_HIVE)
    by (vm_compute; reflexivity).
  exact (proj1 (colony_terrain_only (Some empty_world) default_params true true (built default_params)
                  (built_tiles default_params) _ Hc Ht Hin) Hk).
Defined.

(** X11: the centre stored in the tile of [(q, r)] is the point
    [hex_axial_to_world] gives for [(q, r)]. *)
Theorem tile_center_axial world p alloc w q r :
  enabled (hex p) = true -> hex_params_validate (hex p) = true ->
  hex_world_create world (Some p) alloc = (true, Some w) ->
  q_min w <= q <= q_max w -> r_min w <= r <= r_max w ->
  exists t, hex_world_tile (Some w) q r = Some t /\
            (center_x t, center_y t) = hex_axial_to_world (Some w) q r.
Proof. exact (stored_center world p alloc w q r). Qed.

Lemma filter_all_visible i ts :
  Forall (fun t => flags t = HEX_TILE_VISIBLE) ts ->
  filter (fun p => tile_visible (snd p)) (enumerate_from i ts) = enumerate_from i ts.
Proof.
  revert i. induction ts as [|t ts IH]; intros i H; [reflexivity|].
  inversion H as [|? ? Ht Hts]; subst. cbn [enumerate_from filter snd].
  unfold tile_visible at 1. rewrite Ht. cbn. rewrite IH by exact Hts. reflexivity.
Qed.

Lemma tile_center_axial_witness :
  exists t, hex_world_tile (Some (built small_params)) 1 (-1) = Some t /\
            (center_x t, center_y t) = hex_axial_to_world (Some (built small_params)) 1 (-1).
Proof.
  assert (H1 : enabled (hex small_params) = true) by reflexivity.
  assert (H2 : hex_params_validate (hex small_params) = true) by (vm_compute; reflexivity).
  assert (H3 : hex_world_create (Some empty_world) (Some small_params) true
               = (true, Some (built small_params))) by (vm_compute; reflexivity).
  assert (H4 : q_min (built small_params) <= 1 <= q_max (built small_params))
    by (vm_compute; split; discriminate).
  assert (H5 : r_min (built small_params) <= -1 <= r_max (built small_params))
    by (vm_compute; split; discriminate).
  exact (tile_center_axial (Some empty_world) small_params true (built small_params) 1 (-1)
           H1 H2 H3 H4 H5).
Defined.

Lemma find_all_visible i si ts :
  Forall (fun t => flags t = HEX_TILE_VISIBLE) ts ->
  find (fun p => (fst p =? si) && tile_visible (snd p)) (enumerate_from i ts) =
  find (fun p => fst p =? si) (enumerate_from i ts).
Proof.
  revert i. induction ts as [|t ts IH]; intros i H; [reflexivity|].
  inversion H as [|? ? Ht Hts]; subst. cbn [enumerate_from find fst snd].
  unfold tile_visible at 1. rewrite Ht. cbn [Z.land HEX_TILE_VISIBLE Z.eqb negb].
  rewrite andb_true_r. rewrite IH by exact Hts. reflexivity.
Qed.

Lemma find_enumerate {A} i si (l : list A) :
  find (fun p => fst p =? si) (enumerate_from i l) =
  if i <=? si then option_map (fun x => (si, x)) (nth_error l (Z.to_nat (si - i))) else None.
Proof.
  revert i. induction l as [|x l IH]; intros i; cbn [enumerate_from find fst].
  - destruct (i <=? si); [destruct (Z.to_nat (si - i)); reflexivity|reflexivity].
  - destruct (i =? si) eqn:E.
    + apply Z.eqb_eq in E. subst si. rewrite Z.leb_refl, Z.sub_diag. reflexivity.
    + apply Z.eqb_neq in E. rewrite IH.
      destruct (i + 1 <=? si) eqn:E1.
      * apply Z.leb_le in E1. rewrite (proj2 (Z.leb_le i si)) by lia.
        replace (Z.to_nat (si - i)) with (S (Z.to_nat (si - (i + 1)))) by lia. reflexivity.
      * apply Z.leb_gt in E1. rewrite (proj2 (Z.leb_gt i si)) by lia. reflexivity.
Qed.

Lemma enumerate_from_length {A} i (l : list A) : length (enumerate_from i l) = length l.
Proof.
  revert i. induction l as [|x l IH]; intros i; cbn [enumerate_from length]; [|rewrite IH]; reflexivity.
Qed.

Lemma nth_error_map_enumerate {A B} (f : Z * A -> B) i (l : list A) j :
  nth_error (map f (enumerate_from i l)) j =
  option_map (fun x => f (i + Z.of_nat j, x)) (nth_error l j).
Proof.
  revert i j. induction l as [|x l IH]; intros i j; [destruct j; reflexivity|].
  destruct j as [|j]; cbn [enumerate_from map nth_error].
  - rewrite Z.add_0_r. reflexivity.
  - rewrite IH. destruct (nth_error l j); cbn [option_map]; [|reflexivity].
    do 3 f_equal. lia.
Qed.

(** X12: on a world built from a valid configuration, when the [realloc]
    of the instance buffer succeeds (or none is needed), every tile is
    drawn, one instance per tile in index order, and the outline is drawn
    exactly when the selected index is below [count]. *)
Theorem hex_draw_render_built p w0 w ts capacity fuel si top fb_width fb_height cam_zoom :
  enabled (hex p) = true -> hex_params_validate (hex p) = true ->
  hex_world_create (Some w0) (Some p) true = (true, Some w) -> tiles w = Some ts ->
  pow2_or_zero capacity -> (64 <= fuel)%nat ->
  0 < fb_width -> 0 < fb_height -> fle cam_zoom c0 = false -> 0 <= si ->
  let prm := {| rh_world := Some w; rh_selected_index := si; rh_enabled := true;
                rh_draw_on_top := top |} in
  exists capacity' calls,
    hex_draw_render fuel true (Some capacity) (Some prm) fb_width fb_height cam_zoom
      = Some (true, Some capacity', Some calls) /\
    pow2_or_zero capacity' /\ count w <= capacity' /\
    Z.of_nat (length (drawn calls)) = count w /\
    (forall j t, nth_error ts j = Some t ->
       nth_error (drawn calls) j = Some (tile_instance w t (Z.of_nat j =? si))) /\
    outline calls =
      (if si <? count w
       then option_map (fun t => highlight_of (tile_instance w t true)) (nth_error ts (Z.to_nat si))
       else None).
Proof.
  intros Hen Hv Hc Ht Hcap Hf Hw Hh Hz Hsi. cbv zeta.
  destruct (built_length (Some w0) p true w ts Hen Hv Hc Ht) as [HL Hpos].
  assert (Hvis : Forall (fun t => flags t = HEX_TILE_VISIBLE) ts).
  { apply Forall_forall. intros t Hin.
    destruct (generated_tile (Some w0) p true true w ts t Hc Ht Hin) as (q & r & ->).
    apply assign_flags. }
  assert (Hfirst : firstn (Z.to_nat (count w)) ts = ts).
  { apply firstn_all2. lia. }
  assert (Hfl : filter tile_visible ts = ts).
  { clear -Hvis. induction Hvis as [|t ts Ht _ IH]; [reflexivity|].
    cbn [filter]. unfold tile_visible at 1. rewrite Ht. cbn. rewrite IH. reflexivity. }
  destruct (ensure_capacity_grow fuel capacity (count w) Hcap
              ltac:(split; [lia|]; change (2 ^ 63) with 9223372036854775808; lia) Hf)
    as (cap' & Ec & Hp2 & Hge & _ & _).
  unfold hex_draw_render. cbn [rh_enabled rh_world rh_selected_index negb]. rewrite Ht.
  rewrite (proj2 (Z.eqb_neq (count w) 0)) by lia.
  rewrite (proj2 (Z.leb_gt fb_width 0) Hw), (proj2 (Z.leb_gt fb_height 0) Hh), Hz. cbn [orb].
  rewrite Hfirst, Hfl, HL. rewrite (proj2 (Z.eqb_neq (count w) 0)) by lia.
  rewrite Ec.
  assert (Hsv : negb (si =? SIZE_MAX) && (si <? count w) = (si <? count w)).
  { destruct (si <? count w) eqn:E; [|apply andb_false_r].
    apply Z.ltb_lt in E. rewrite (proj2 (Z.eqb_neq si SIZE_MAX)); [reflexivity|].
    unfold SIZE_MAX. lia. }
  rewrite Hsv, render_loop_spec.
  eexists; eexists; split; [reflexivity|]. cbn [drawn outline].
  rewrite filter_all_visible by exact Hvis.
  split; [exact Hp2|]. split; [exact Hge|]. split.
  - rewrite length_map, enumerate_from_length. exact HL.
  - split.
    + intros j t Hj. rewrite nth_error_map_enumerate, Hj. cbn [option_map fst snd].
      f_equal. f_equal. rewrite Z.add_0_l.
      destruct (si <? count w) eqn:E; [reflexivity|].
      apply Z.ltb_ge in E. cbn [andb]. symmetry. apply Z.eqb_neq.
      assert (Hjl : (j < length ts)%nat) by (apply nth_error_Some; congruence). lia.
    + destruct (si <? count w); [|reflexivity].
      rewrite find_all_visible by exact Hvis. rewrite find_enumerate.
      rewrite (proj2 (Z.leb_le 0 si) Hsi), Z.sub_0_r.
      destruct (nth_error ts (Z.to_nat si)); reflexivity.
Qed.

Lemma hex_draw_render_built_witness :
  let prm := {| rh_world := Some (built small_params); rh_selected_index := 3; rh_enabled := true;
                rh_draw_on_top := false |} in
  exists capacity' calls,
    hex_draw_render 64 true (Some 0) (Some prm) 1280 720 c1
      = Some (true, Some capacity', Some calls) /\
    pow2_or_zero capacity' /\ count (built small_params) <= capacity' /\
    Z.of_nat (length (drawn calls)) = count (built small_params).
Proof.
  assert (H1 : enabled (hex small_params) = true) by reflexivity.
  assert (H2 : hex_params_validate (hex small_params) = true) by (vm_compute; reflexivity).
  assert (H3 : hex_world_create (Some empty_world) (Some small_params) true
               = (true, Some (built small_params))) by (vm_compute; reflexivity).
  assert (H4 : tiles (built small_params) = Some (built_tiles small_params))
    by (vm_compute; reflexivity).
  assert (H5 : pow2_or_zero 0) by (left; reflexivity).
  assert (H6 : (64 <= 64)%nat) by lia.
  assert (H7 : 0 < 1280) by lia.
  assert (H8 : 0 < 720) by lia.
  assert (H9 : fle c1 c0 = false) by (vm_compute; reflexivity).
  assert (H10 : 0 <= 3) by lia.
  destruct (hex_draw_render_built small_params empty_world (built small_params)
              (built_tiles small_params) 0 64 3 false 1280 720 c1
              H1 H2 H3 H4 H5 H6 H7 H8 H9 H10) as (c & calls & E & P & L & N & _).
  exists c, calls. auto.
Defined.

(** X13: what [app_refresh_hex_overlay] passes on is consistent with the
    state it leaves. *)
Theorem app_refresh_hex_overlay_consistent hex_enabled s :
  let '(s', out) := app_refresh_hex_overlay hex_enabled s in
  let prm := render_params out in
  let w := g_hex_world s in
  g_hex_world s' = w /\ g_hex_show_grid s' = g_hex_show_grid s /\
  g_hex_draw_on_top s' = g_hex_draw_on_top s /\
  g_hex_selected_index s' = rh_selected_index prm /\
  (rh_selected_index prm = SIZE_MAX \/ rh_selected_index prm < count w) /\
  ui_overlay out = (g_hex_show_grid s && hex_enabled, g_hex_draw_on_top s) /\
  (rh_enabled prm = true ->
     rh_world prm = Some w /\ g_hex_show_grid s = true /\ hex_enabled = true /\
     tiles w <> None /\ 0 < count w) /\
  (rh_enabled prm = false ->
     rh_world prm = None /\ rh_selected_index prm = SIZE_MAX /\ ui_selected out = None) /\
  (forall t, ui_selected out = Some t ->
     exists ts, tiles w = Some ts /\ nth_error ts (Z.to_nat (rh_selected_index prm)) = Some t).
Proof.
  unfold app_refresh_hex_overlay, app_reset_hex_selection. cbv zeta.
  destruct (g_hex_show_grid s) eqn:Sg; cbn [andb];
    [|repeat split; try reflexivity; try discriminate; left; reflexivity].
  destruct hex_enabled; cbn [andb];
    [|repeat split; try reflexivity; try discriminate; left; reflexivity].
  destruct (tiles (g_hex_world s)) as [ts|] eqn:Tw; cbn [andb];
    [|repeat split; try reflexivity; try discriminate; left; reflexivity].
  destruct (0 <? count (g_hex_world s)) eqn:C; cbn [andb];
    [|repeat split; try reflexivity; try discriminate; left; reflexivity].
  apply Z.ltb_lt in C.
  destruct (g_hex_selected_index s <? count (g_hex_world s)) eqn:E.
  - apply Z.ltb_lt in E. destruct (g_hex_selected_index s =? SIZE_MAX) eqn:M; cbn [negb].
    + apply Z.eqb_eq in M.
      repeat split; try reflexivity; try discriminate; auto.
    + repeat split; try reflexivity; try discriminate; auto.
      intros t Ht. exists ts. split; [reflexivity|exact Ht].
  - rewrite Z.eqb_refl. cbn [negb].
    repeat split; try reflexivity; try discriminate; auto.
Qed.

(** X14: refreshing the overlay a second time changes nothing. *)
Theorem app_refresh_hex_overlay_idempotent hex_enabled s :
  let '(s', out) := app_refresh_hex_overlay hex_enabled s in
  app_refresh_hex_overlay hex_enabled s' = (s', out).
Proof.
  destruct s as [w sg top sel]. unfold app_refresh_hex_overlay, app_reset_hex_selection. cbv zeta.
  cbn [g_hex_world g_hex_show_grid g_hex_draw_on_top g_hex_selected_index].
  destruct sg, hex_enabled; cbn [andb]; try reflexivity.
  destruct (tiles w) as [ts|] eqn:Tw; cbn [andb];
    [|cbn [g_hex_world g_hex_show_grid g_hex_draw_on_top g_hex_selected_index]; rewrite Tw;
      reflexivity].
  destruct (0 <? count w) eqn:C; cbn [andb];
    [|cbn [g_hex_world g_hex_show_grid g_hex_draw_on_top g_hex_selected_index]; rewrite Tw, C;
      reflexivity].
  destruct (sel <? count w) eqn:E; cbn [andb].
  - destruct (sel =? SIZE_MAX) eqn:M;
      cbn [negb g_hex_world g_hex_show_grid g_hex_draw_on_top g_hex_selected_index];
      rewrite ?Tw, ?C; cbn [andb].
    + apply Z.eqb_eq in M. subst sel. rewrite E, Z.eqb_refl. reflexivity.
    + rewrite E, M. reflexivity.
  - rewrite Z.eqb_refl.
    cbn [negb g_hex_world g_hex_show_grid g_hex_draw_on_top g_hex_selected_index].
    rewrite Tw, C. cbn [andb]. destruct (SIZE_MAX <? count w); rewrite ?Z.eqb_refl; reflexivity.
Qed.

(** X15: rebuilding with the hex layer disabled clears the world, the grid
    toggle and the selection, and the renderer then draws nothing. *)
Theorem app_rebuild_hex_world_disabled p alloc_ok s :
  enabled (hex p) = false ->
  let '(s', out) := app_rebuild_hex_world p alloc_ok s in
  s' = {| g_hex_world := empty_world; g_hex_show_grid := false;
          g_hex_draw_on_top := g_hex_draw_on_top s; g_hex_selected_index := SIZE_MAX |} /\
  render_params out = {| rh_world := None; rh_selected_index := SIZE_MAX; rh_enabled := false;
                         rh_draw_on_top := g_hex_draw_on_top s |} /\
  ui_overlay out = (false, g_hex_draw_on_top s) /\ ui_selected out = None /\
  (forall fuel realloc_ok ctx fb_width fb_height cam_zoom,
     hex_draw_render fuel realloc_ok ctx (Some (render_params out)) fb_width fb_height cam_zoom
       = Some (false, ctx, None)).
Proof.
  intros Hd. unfold app_rebuild_hex_world, app_refresh_hex_overlay, app_reset_hex_selection.
  rewrite Hd. cbn. repeat split. intros fuel ok ctx fbw fbh z. destruct ctx; reflexivity.
Qed.

Lemma app_rebuild_hex_world_disabled_witness :
  let p := {| hive := no_hive;
              hex := {| enabled := false; p_cell_size := of_Z 48; p_origin_x := fzero;
                        p_origin_y := fzero; p_q_min := -2; p_q_max := 2; p_r_min := -2;
                        p_r_max := 2 |} |} in
  let s := {| g_hex_world := built small_params; g_hex_show_grid := true;
              g_hex_draw_on_top := false; g_hex_selected_index := 3 |} in
  g_hex_show_grid (fst (app_rebuild_hex_world p true s)) = false /\
  ui_selected (snd (app_rebuild_hex_world p true s)) = None.
Proof.
  cbv zeta.
  match goal with |- g_hex_show_grid (fst (app_rebuild_hex_world ?P _ ?S)) = _ /\ _ =>
    assert (H : enabled (hex P) = false) by reflexivity;
    pose proof (app_rebuild_hex_world_disabled P true S H) as R
  end.
  destruct (app_rebuild_hex_world _ _ _) as [s' out].
  destruct R as (-> & _ & _ & U & _). split; [reflexivity|exact U].
Defined.

(** X16: rebuilding from a valid, enabled configuration installs the newly
    built world; the selection survives only if the grid is shown and the
    index is inside the new world. *)
Theorem app_rebuild_hex_world_valid p s :
  enabled (hex p) = true -> hex_params_validate (hex p) = true ->
  let '(s', out) := app_rebuild_hex_world p true s in
  let w := g_hex_world s' in
  let sel := g_hex_selected_index s in
  let keep := g_hex_show_grid s && (sel <? count w) in
  exists ts,
    hex_world_create (Some empty_world) (Some p) true = (true, Some w) /\ tiles w = Some ts /\
    g_hex_show_grid s' = g_hex_show_grid s /\
    g_hex_selected_index s' = (if keep then sel else SIZE_MAX) /\
    render_params out = {| rh_world := if g_hex_show_grid s then Some w else None;
                           rh_selected_index := if keep then sel else SIZE_MAX;
                           rh_enabled := g_hex_show_grid s;
                           rh_draw_on_top := g_hex_draw_on_top s |} /\
    ui_overlay out = (g_hex_show_grid s, g_hex_draw_on_top s) /\
    ui_selected out = (if keep then nth_error ts (Z.to_nat sel) else None).
Proof.
  intros Hen Hv.
  destruct (create_valid_outcome empty_world p true Hen Hv) as (w & Hc & Hn).
  destruct (tiles w) as [ts|] eqn:Ht; [|discriminate (proj1 Hn eq_refl)].
  destruct (built_length (Some empty_world) p true w ts Hen Hv Hc Ht) as [HL Hpos].
  unfold app_rebuild_hex_world, app_refresh_hex_overlay, app_reset_hex_selection.
  rewrite Hen, Hc. cbn [snd negb g_hex_world g_hex_show_grid g_hex_draw_on_top g_hex_selected_index].
  cbv zeta. rewrite Ht. rewrite (proj2 (Z.ltb_lt 0 (count w))) by lia.
  destruct s as [w0 sg top sel].
  cbn [g_hex_world g_hex_show_grid g_hex_draw_on_top g_hex_selected_index].
  destruct sg; cbn [andb].
  - destruct (sel <? count w) eqn:E.
    + assert (E' := proj1 (Z.ltb_lt _ _) E).
      rewrite (proj2 (Z.eqb_neq sel SIZE_MAX)) by (unfold SIZE_MAX; lia). cbn [negb].
      cbn [g_hex_world g_hex_show_grid g_hex_draw_on_top g_hex_selected_index render_params
           ui_overlay ui_selected].
      exists ts. rewrite E. repeat split; assumption.
    + rewrite Z.eqb_refl. cbn [negb].
      cbn [g_hex_world g_hex_show_grid g_hex_draw_on_top g_hex_selected_index render_params
           ui_overlay ui_selected].
      exists ts. rewrite E. repeat split; assumption.
  - cbn [g_hex_world g_hex_show_grid g_hex_draw_on_top g_hex_selected_index render_params
         ui_overlay ui_selected].
    exists ts. repeat split; assumption.
Qed.

Lemma app_rebuild_hex_world_valid_witness :
  let s := {| g_hex_world := empty_world; g_hex_show_grid := true;
              g_hex_draw_on_top := false; g_hex_selected_index := 3 |} in
  g_hex_selected_index (fst (app_rebuild_hex_world small_params true s)) = 3 /\
  rh_enabled (render_params (snd (app_rebuild_hex_world small_params true s))) = true.
Proof.
  cbv zeta.
  assert (H1 : enabled (hex small_params) = true) by reflexivity.
  assert (H2 : hex_params_validate (hex small_params) = true) by (vm_compute; reflexivity).
  pose proof (app_rebuild_hex_world_valid small_params
    {| g_hex_world := empty_world; g_hex_show_grid := true;
       g_hex_draw_on_top := false; g_hex_selected_index := 3 |} H1 H2) as R.
  destruct (app_rebuild_hex_world _ _ _) as [s' out].
  destruct R as (ts & Hc & Ht & _ & Sel & Rp & _). cbn [fst snd].
  assert (Hn : count (g_hex_world s') = 25).
  { assert (E : hex_world_create (Some empty_world) (Some small_params) true
                = (true, Some (built small_params))) by (vm_compute; reflexivity).
    rewrite E in Hc. injection Hc as <-. vm_compute. reflexivity. }
  cbn [g_hex_show_grid g_hex_selected_index andb] in Sel, Rp. rewrite Hn in Sel.
  split; [exact Sel|]. rewrite Rp. reflexivity.
Defined.

(** X17: when the allocation of a rebuild fails, the overlay is switched off
    for the renderer and the selection is cleared, while the grid toggle
    and the UI's grid flag keep their values. *)
Theorem app_rebuild_hex_world_alloc_failure p s :
  enabled (hex p) = true -> hex_params_validate (hex p) = true ->
  let '(s', out) := app_rebuild_hex_world p false s in
  hex_world_create (Some empty_world) (Some p) false = (false, Some (g_hex_world s')) /\
  tiles (g_hex_world s') = None /\
  g_hex_show_grid s' = g_hex_show_grid s /\ g_hex_selected_index s' = SIZE_MAX /\
  render_params out = {| rh_world := None; rh_selected_index := SIZE_MAX; rh_enabled := false;
                         rh_draw_on_top := g_hex_draw_on_top s |} /\
  ui_overlay out = (g_hex_show_grid s, g_hex_draw_on_top s) /\ ui_selected out = None.
Proof.
  intros Hen Hv.
  destruct (create_valid_outcome empty_world p false Hen Hv) as (w & Hc & Hn).
  assert (Ht : tiles w = None) by (apply Hn; reflexivity).
  unfold app_rebuild_hex_world, app_refresh_hex_overlay, app_reset_hex_selection.
  rewrite Hen, Hc. cbn [snd negb g_hex_world g_hex_show_grid g_hex_draw_on_top g_hex_selected_index].
  cbv zeta. rewrite Ht. rewrite !andb_false_r. cbn.
  rewrite andb_true_r. repeat split; assumption.
Qed.

Lemma app_rebuild_hex_world_alloc_failure_witness :
  let s := {| g_hex_world := empty_world; g_hex_show_grid := true;
              g_hex_draw_on_top := false; g_hex_selected_index := 3 |} in
  g_hex_show_grid (fst (app_rebuild_hex_world small_params false s)) = true /\
  rh_enabled (render_params (snd (app_rebuild_hex_world small_params false s))) = false.
Proof.
  cbv zeta.
  assert (H1 : enabled (hex small_params) = true) by reflexivity.
  assert (H2 : hex_params_validate (hex small_params) = true) by (vm_compute; reflexivity).
  pose proof (app_rebuild_hex_world_alloc_failure small_params
    {| g_hex_world := empty_world; g_hex_show_grid := true;
       g_hex_draw_on_top := false; g_hex_selected_index := 3 |} H1 H2) as R.
  destruct (app_rebuild_hex_world _ _ _) as [s' out].
  destruct R as (_ & _ & Sg & _ & Rp & _). cbn [fst snd].
  split; [exact Sg|]. rewrite Rp. reflexivity.
Defined.

(** X18: on a built world whose round trip holds on the whole box, picking
    the stored centre of a tile returns that tile's coordinates and index. *)
Theorem hex_world_pick_tile_center world p alloc w q r t :
  enabled (hex p) = true -> hex_params_validate (hex p) = true ->
  hex_world_create world (Some p) alloc = (true, Some w) ->
  roundtrip_box_ok w = true ->
  hex_world_tile (Some w) q r = Some t ->
  hex_world_pick (Some w) (center_x t) (center_y t) = Some (q, r, hex_world_index (Some w) q r).
Proof.
  intros Hen Hv Hc Hrt Ht.
  destruct (create_ok world p alloc w Hen Hv Hc)
    as (Eqn & Eqx & Ern & Erx & Ew & Eh & Ec & _ & _ & _ & B1 & B2 & B3 & B4 & Bq & Br & Et).
  assert (Hbox : q_min w <= q <= q_max w /\ r_min w <= r <= r_max w).
  { destruct (Z.le_decidable (q_min w) q), (Z.le_decidable q (q_max w)),
      (Z.le_decidable (r_min w) r), (Z.le_decidable r (r_max w)); try (split; split; assumption);
    rewrite (proj2 (index_out_of_box w q r ltac:(lia))) in Ht; discriminate. }
  destruct Hbox as [Hq Hr].
  destruct (stored_center world p alloc w q r Hen Hv Hc Hq Hr) as (t' & Ht' & Hctr).
  rewrite Ht in Ht'. injection Ht' as <-.
  pose proof (roundtrip_box_ok_spec w q r Hrt Hq Hr) as Hround.
  unfold roundtrip in Hround. rewrite <- Hctr in Hround.
  unfold hex_world_pick. rewrite Et.
  destruct (hex_world_to_axial_f (Some w) (center_x t) (center_y t)) as [qf rf].
  rewrite Hround.
  assert (Hib : hex_world_in_bounds (Some w) q r = true).
  { unfold hex_world_in_bounds. rewrite Et. apply andb_true_iff. split; [apply andb_true_iff; split|];
      [apply andb_true_iff; split|..]; apply Z.leb_le; lia. }
  rewrite Hib. cbn [negb].
  rewrite (index_in_box w _ q r Et) by lia.
  rewrite (proj2 (Z.eqb_neq _ SIZE_MAX)) by (unfold SIZE_MAX; nia). reflexivity.
Qed.

Lemma hex_world_pick_tile_center_witness :
  let w := built small_params in
  let t := nth 7 (built_tiles small_params) zero_tile in
  hex_world_tile (Some w) 0 (-1) = Some t /\
  hex_world_pick (Some w) (center_x t) (center_y t) = Some (0, -1, hex_world_index (Some w) 0 (-1)).
Proof.
  cbv zeta.
  assert (H1 : enabled (hex small_params) = true) by reflexivity.
  assert (H2 : hex_params_validate (hex small_params) = true) by (vm_compute; reflexivity).
  assert (H3 : hex_world_create (Some empty_world) (Some small_params) true
               = (true, Some (built small_params))) by (vm_compute; reflexivity).
  assert (H4 : roundtrip_box_ok (built small_params) = true) by (vm_compute; reflexivity).
  assert (H5 : hex_world_tile (Some (built small_params)) 0 (-1)
               = Some (nth 7 (built_tiles small_params) zero_tile)) by (vm_compute; reflexivity).
  split; [exact H5|].
  exact (hex_world_pick_tile_center (Some empty_world) small_params true (built small_params) 0 (-1)
           _ H1 H2 H3 H4 H5).
Defined.
